(** * sbte-formatter: the core of [src/core/main.ts]

    A shallow embedding of [parseCsv], [formatData] and [getAllCourses],
    and the properties of the pivot that the specification states.

    Run-time values.  The rows handed to [formatData] are produced by a CSV
    parser with dynamic typing, so a field declared [number] or [string] in
    the TypeScript interfaces can hold any primitive at run time.  Fields are
    therefore modelled by a type of JavaScript primitives.  Numbers are the
    integer-valued ones (register numbers and semesters are integers), which
    ToString prints in plain decimal notation; NaN and fractions are outside
    the model. *)

From Stdlib Require Import ZArith NArith Ascii.
From stdpp Require Import base list strings pretty sorting.

Local Open Scope Z_scope.

(** ** JavaScript primitives *)

Inductive JsVal : Type :=
  | JUndefined
  | JNull
  | JBool (b : bool)
  | JNum (z : Z)
  | JStr (s : string).

#[global] Instance JsVal_eq_dec : EqDecision JsVal.
Proof. solve_decision. Defined.

(** [a === b]: same type and same value. *)
Definition strict_eq (a b : JsVal) : bool :=
  match a, b with
  | JUndefined, JUndefined => true
  | JNull, JNull => true
  | JBool x, JBool y => Bool.eqb x y
  | JNum x, JNum y => Z.eqb x y
  | JStr x, JStr y => String.eqb x y
  | _, _ => false
  end.

(** ToBoolean, the test of [c ? a : b]. *)
Definition truthy (v : JsVal) : bool :=
  match v with
  | JUndefined | JNull => false
  | JBool b => b
  | JNum z => negb (Z.eqb z 0)
  | JStr s => negb (String.eqb s "")
  end.

(** ToPropertyKey, applied to the subscript of [o[k]] and to a computed
    key [{ [k]: v }].  The numeral of a number is the plain decimal one,
    which is what ToString gives for the integers of magnitude below
    10^21, register numbers and course codes among them; larger ones are
    outside the model. *)
Definition to_property_key (v : JsVal) : string :=
  match v with
  | JUndefined => "undefined"
  | JNull => "null"
  | JBool true => "true"
  | JBool false => "false"
  | JNum z => pretty z
  | JStr s => s
  end.

(** ** Plain objects used as maps

    [props] lists the own properties in the order of their creation.
    [proto_null] records that the prototype was set to [null]; a fresh
    object literal inherits from [Object.prototype], whose only accessor
    property is [__proto__]. *)

Record JsObj : Type := mkObj {
  props : list (string * JsVal);
  proto_null : bool
}.

Definition has_own (k : string) (o : JsObj) : bool :=
  existsb (fun p => String.eqb (fst p) k) (props o).

(** Own-property read. *)
Fixpoint assoc_get (k : string) (l : list (string * JsVal)) : option JsVal :=
  match l with
  | [] => None
  | (k', v) :: l' => if String.eqb k' k then Some v else assoc_get k l'
  end.

Definition obj_get (k : string) (o : JsObj) : option JsVal :=
  assoc_get k (props o).

Fixpoint assoc_update (k : string) (v : JsVal) (l : list (string * JsVal))
  : list (string * JsVal) :=
  match l with
  | [] => []
  | (k', v') :: l' =>
      if String.eqb k' k then (k', v) :: l' else (k', v') :: assoc_update k v l'
  end.

(** The object literal [{ [k]: v }]: a computed key always defines an own
    data property. *)
Definition obj_literal (k : string) (v : JsVal) : JsObj :=
  mkObj [(k, v)] false.

(** The assignment [o[k] = v] for a primitive [v].  An own property is
    overwritten in place.  Otherwise the prototype chain is consulted: the
    key [__proto__] reaches the accessor of [Object.prototype], whose setter
    changes the prototype when [v] is [null] and ignores any other
    primitive; every other key, and [__proto__] itself once the prototype
    is [null], is created as a new own property, last in creation order. *)
Definition obj_set (k : string) (v : JsVal) (o : JsObj) : JsObj :=
  if has_own k o then mkObj (assoc_update k v (props o)) (proto_null o)
  else if String.eqb k "__proto__" && negb (proto_null o) then
    match v with
    | JNull => mkObj (props o) true
    | _ => o
    end
  else mkObj (props o ++ [(k, v)]) (proto_null o).

(** *** Enumeration order of [Object.keys]

    Array indices (canonical decimal numerals below 2^32 - 1) come first, in
    ascending numeric order; the other keys follow in creation order. *)

Definition is_digit (c : ascii) : bool :=
  let n := N_of_ascii c in ((48 <=? n) && (n <=? 57))%N.

Fixpoint digits_value (s : string) (acc : N) : option N :=
  match s with
  | EmptyString => Some acc
  | String c s' =>
      if is_digit c then digits_value s' (acc * 10 + (N_of_ascii c - 48))%N
      else None
  end.

Definition array_index (k : string) : option N :=
  match k with
  | EmptyString => None
  | String c s' =>
      if Ascii.eqb c "0" && negb (String.eqb s' "") then None
      else match digits_value k 0%N with
           | Some n => if (n <? 4294967295)%N then Some n else None
           | None => None
           end
  end.

Fixpoint insert_index (n : N) (k : string) (l : list (N * string))
  : list (N * string) :=
  match l with
  | [] => [(n, k)]
  | (m, k') :: l' =>
      if (n <=? m)%N then (n, k) :: l else (m, k') :: insert_index n k l'
  end.

Fixpoint index_keys (ks : list string) : list (N * string) :=
  match ks with
  | [] => []
  | k :: ks' =>
      match array_index k with
      | Some n => insert_index n k (index_keys ks')
      | None => index_keys ks'
      end
  end.

(** The order in which [index_keys] lists the array indices. *)
Definition index_le (p q : N * string) : Prop := (p.1 <= q.1)%N.

Definition own_keys (o : JsObj) : list string := fst <$> props o.

Definition Object_keys (o : JsObj) : list string :=
  (snd <$> index_keys (own_keys o))
  ++ filter (fun k => array_index k = None) (own_keys o).

(** When the assignment [o[k] = v] takes effect as a property write. *)
Definition writes (k : string) (o : JsObj) : Prop :=
  k ∈ own_keys o \/ k <> "__proto__" \/ proto_null o = true.

(** ** The records of [main.ts] *)

Module Grade.
Inductive t : Type := F | E | D | C | B | A | S.

(** The string value of each member of [enum Grade]. *)
Definition val (g : t) : string :=
  match g with
  | F => "F" | E => "E" | D => "D" | C => "C" | B => "B" | A => "A" | S => "S"
  end.
End Grade.

(** [interface ResultType]: one parsed row. *)
Record ResultType : Type := mkResult {
  registerNo : JsVal;
  studentName : JsVal;
  branch : JsVal;
  semester : JsVal;
  course : JsVal;
  examType : JsVal;
  attendance : JsVal;
  withheld : JsVal;
  iMark : JsVal;
  grade : JsVal;
  result : JsVal
}.

(** [interface FormattedType]: one pivoted student.  The fields other than
    [grades] carry the prefix [f_]. *)
Record FormattedType : Type := mkFormatted {
  f_registerNo : JsVal;
  f_studentName : JsVal;
  f_branch : JsVal;
  f_semester : JsVal;
  f_examType : JsVal;
  grades : JsObj;
  f_withheld : JsVal
}.

Definition with_grades (g : JsObj) (i : FormattedType) : FormattedType :=
  mkFormatted (f_registerNo i) (f_studentName i) (f_branch i) (f_semester i)
              (f_examType i) g (f_withheld i).

(** ** Completions: a statement ends normally or throws *)

Inductive JsError : Type := TypeError (msg : string).

Inductive Completion (A : Type) : Type :=
  | Normal (a : A)
  | Throw (e : JsError).
Arguments Normal {A} a.
Arguments Throw {A} e.

#[global] Instance Completion_ret : MRet Completion := fun A a => Normal a.

#[global] Instance Completion_bind : MBind Completion := fun A B k c =>
  match c with
  | Normal a => k a
  | Throw e => Throw e
  end.

(** [l.forEach(f)] where [f] updates the state [s] that it closes over. *)
Fixpoint forEach {A St} (f : St -> A -> Completion St) (l : list A) (s : St)
  : Completion St :=
  match l with
  | [] => Normal s
  | x :: l' => s' ← f s x; forEach f l' s'
  end.

(** [l.findIndex(p)]: the first index whose element satisfies [p], or -1. *)
Fixpoint findIndex_from {A} (p : A -> bool) (l : list A) (i : Z) : Z :=
  match l with
  | [] => -1
  | x :: l' => if p x then i else findIndex_from p l' (i + 1)
  end.

Definition findIndex {A} (p : A -> bool) (l : list A) : Z :=
  findIndex_from p l 0.

(** ** [formatData] *)

(** The value of the conditional chain at lines 100-108. *)
Definition seed_outcome (item : ResultType) : JsVal :=
  if truthy (grade item) then grade item
  else if strict_eq (attendance item) (JStr "Absent") then JStr "Absent"
  else if strict_eq (withheld item) (JStr "With held for Malpractice")
       then JStr (Grade.val Grade.F)
  else if strict_eq (withheld item) (JStr "Withheld") then JStr "Withheld"
  else JNull.

(** The body of the [forEach] callback; [formattedData] is the array it
    mutates.  Reading [.grades] of an absent element throws. *)
Definition formatData_step (formattedData : list FormattedType)
    (item : ResultType) : Completion (list FormattedType) :=
  let index :=
    findIndex (fun i => strict_eq (f_registerNo i) (registerNo item))
              formattedData in
  if index =? -1 then
    Normal (formattedData ++
      [ {| f_registerNo := registerNo item;
           f_studentName := studentName item;
           f_branch := branch item;
           f_semester := semester item;
           f_examType := examType item;
           grades := obj_literal (to_property_key (course item))
                                 (seed_outcome item);
           f_withheld := withheld item |} ])
  else
    match formattedData !! Z.to_nat index with
    | None => Throw (TypeError "Cannot read properties of undefined")
    | Some i =>
        Normal (<[Z.to_nat index :=
                   with_grades (obj_set (to_property_key (course item))
                                        (grade item) (grades i)) i]>
                formattedData)
    end.

Definition formatData (data : list ResultType)
  : Completion (list FormattedType) :=
  forEach formatData_step data [].

(** ** [getAllCourses] *)

(** [courses.includes(course)] on strings. *)
Definition includes (course : string) (courses : list string) : bool :=
  existsb (String.eqb course) courses.

Definition getAllCourses (data : list FormattedType) : list string :=
  fold_left
    (fun courses item =>
       fold_left
         (fun courses course =>
            if negb (includes course courses) then courses ++ [course]
            else courses)
         (Object_keys (grades item)) courses)
    data [].

(** ** [parseCsv] *)

Definition LF : ascii := "010".
Definition CR : ascii := "013".

Definition add_char (c : ascii) (ls : list string) : list string :=
  match ls with
  | [] => [String c EmptyString]
  | l :: ls' => String c l :: ls'
  end.

(** [s.split(/\r\n|\n/)]: at each position the separator CR LF is tried
    before LF; a CR that no LF follows stays in its line. *)
Fixpoint split_lines (s : string) : list string :=
  match s with
  | EmptyString => [EmptyString]
  | String c s' =>
      if Ascii.eqb c LF then EmptyString :: split_lines s'
      else
        match s' with
        | String c' s'' =>
            if Ascii.eqb c CR && Ascii.eqb c' LF
            then EmptyString :: split_lines s''
            else add_char c (split_lines s')
        | EmptyString => add_char c (split_lines s')
        end
  end.

(** [s.replaceAll(a, b)] for one-character [a] and [b]. *)
Fixpoint replaceAll (a b : ascii) (s : string) : string :=
  match s with
  | EmptyString => EmptyString
  | String c s' => String (if Ascii.eqb c a then b else c) (replaceAll a b s')
  end.

(** [lines.join("\n")]. *)
Definition join_lines (lines : list string) : string :=
  String.concat (String LF EmptyString) lines.

(** What the [FileReader] reports: [onload] with an event whose target may
    be missing and whose result is a string, a buffer or null; or
    [onerror]. *)
Inductive ReaderResult : Type :=
  | ResultString (file : string)
  | ResultArrayBuffer
  | ResultNull.

Inductive ReaderEvent : Type :=
  | Load (target : option ReaderResult)
  | ReadFailed.

(** The callback that [parseCsv] ends up invoking. *)
Inductive Callback : Type :=
  | onSuccess (e : list ResultType)
  | onError (e : string).

Section Parser.

(** [Papa.parse(text, config).data] for the configuration of lines 63-74
    (header row, empty lines skipped, dynamic typing, camel-cased header
    names); the library is not part of the repository. *)
Variable Papa_parse : string -> list ResultType.

(** The handlers installed by [parseCsv], run on what the reader reports;
    [None] when a handler returns without invoking a callback. *)
Definition parseCsv (ev : ReaderEvent) : Completion (option Callback) :=
  match ev with
  | ReadFailed => Normal (Some (onError "Error reading file"))
  | Load None => Normal None
  | Load (Some (ResultString file)) =>
      let allLines := split_lines file in
      if Z.of_nat (length allLines) <? 2 then
        Normal (Some (onError "File is empty"))
      else
        match allLines !! 0%nat with
        | None => Throw (TypeError "Cannot read properties of undefined")
        | Some line0 =>
            let allLines := <[0%nat := replaceAll ";" "," line0]> allLines in
            Normal (Some (onSuccess (Papa_parse (join_lines allLines))))
        end
  | Load (Some _) => Normal None
  end.

End Parser.

(** ** [transformHeader] (lines 66-74)

    Strings stand for sequences of code units below 256.  Without flags,
    [\w] is [A-Za-z0-9_] and [\b] is a boundary between a [\w] and a
    character that is not; [\s] is the white space of the language. *)

Definition is_upper (c : ascii) : bool :=
  let n := N_of_ascii c in ((65 <=? n) && (n <=? 90))%N.

Definition is_lower (c : ascii) : bool :=
  let n := N_of_ascii c in ((97 <=? n) && (n <=? 122))%N.

Definition is_word (c : ascii) : bool :=
  is_upper c || is_lower c || is_digit c || Ascii.eqb c "_".

Definition is_space (c : ascii) : bool :=
  let n := N_of_ascii c in
  (((9 <=? n) && (n <=? 13)) || (n =? 32) || (n =? 160))%N.

(** [word.toLowerCase()] and [word.toUpperCase()] for a match [word] of
    the pattern, which is one [\w] character. *)
Definition word_toLowerCase (c : ascii) : ascii :=
  if is_upper c then ascii_of_N (N_of_ascii c + 32) else c.

Definition word_toUpperCase (c : ascii) : ascii :=
  if is_lower c then ascii_of_N (N_of_ascii c - 32) else c.

Definition prev_is_word (prev : option ascii) : bool :=
  match prev with
  | Some p => is_word p
  | None => false
  end.

(** The pattern [(?:^\w|[A-Z]|\b\w)] at the character [c] of offset
    [index], which [prev] precedes. *)
Definition camel_match (index : nat) (prev : option ascii) (c : ascii) : bool :=
  (Nat.eqb index 0 && is_word c)
  || is_upper c
  || (is_word c && negb (prev_is_word prev)).

(** [header.replace(/(?:^\w|[A-Z]|\b\w)/g, f)] from the offset [index] on,
    with the callback [f] of lines 69-71. *)
Fixpoint replace_camel (index : nat) (prev : option ascii) (s : string)
  : string :=
  match s with
  | EmptyString => EmptyString
  | String c s' =>
      String (if camel_match index prev c
              then if Nat.eqb index 0 then word_toLowerCase c
                   else word_toUpperCase c
              else c)
             (replace_camel (S index) (Some c) s')
  end.

(** [s.replace(/\s+/g, "")]. *)
Fixpoint remove_spaces (s : string) : string :=
  match s with
  | EmptyString => EmptyString
  | String c s' =>
      if is_space c then remove_spaces s' else String c (remove_spaces s')
  end.

Definition transformHeader (header : string) : string :=
  remove_spaces (replace_camel 0 None header).

(** ** Vocabulary of the specification *)

(** The distinct elements of a list, each at its first occurrence. *)
Fixpoint first_seen {A} `{EqDecision A} (l : list A) : list A :=
  match l with
  | [] => []
  | x :: l' => x :: filter (fun y => y <> x) (first_seen l')
  end.

(** The rows of a student, and the property keys of their courses. *)
Definition rows_of (r : JsVal) (data : list ResultType) : list ResultType :=
  filter (fun item => registerNo item = r) data.

Definition course_keys_of (r : JsVal) (data : list ResultType) : list string :=
  (fun item => to_property_key (course item)) <$> rows_of r data.

(** The first row of a student, whose descriptive fields the pivot keeps. *)
Definition first_row (r : JsVal) (data : list ResultType) : option ResultType :=
  head (rows_of r data).

Definition same_metadata (i : FormattedType) (item : ResultType) : Prop :=
  f_registerNo i = registerNo item /\
  f_studentName i = studentName item /\
  f_branch i = branch item /\
  f_semester i = semester item /\
  f_examType i = examType item /\
  f_withheld i = withheld item.


(** The test of [findIndex] fails on the element [i]. *)
Definition differs (item : ResultType) (i : FormattedType) : Prop :=
  strict_eq (f_registerNo i) (registerNo item) = false.

(** The element pushed for a register number seen for the first time. *)
Definition seed_entry (item : ResultType) : FormattedType :=
  {| f_registerNo := registerNo item;
     f_studentName := studentName item;
     f_branch := branch item;
     f_semester := semester item;
     f_examType := examType item;
     grades := obj_literal (to_property_key (course item)) (seed_outcome item);
     f_withheld := withheld item |}.

(** The element after the assignment of line 113. *)
Definition overwrite_entry (item : ResultType) (i : FormattedType)
  : FormattedType :=
  with_grades (obj_set (to_property_key (course item)) (grade item) (grades i)) i.

(** The course keys in the order in which [getAllCourses] scans them. *)
Definition scanned_keys (data : list FormattedType) : list string :=
  data ≫= (fun item => Object_keys (grades item)).

(** Course outcomes as the specification tags them, their run-time values,
    and the derivation rule in the specification's words. *)
Inductive CourseOutcome : Type :=
  | OGrade (g : Grade.t)
  | OAbsent
  | OWithheld
  | OUnset.

Definition outcome_val (o : CourseOutcome) : JsVal :=
  match o with
  | OGrade g => JStr (Grade.val g)
  | OAbsent => JStr "Absent"
  | OWithheld => JStr "Withheld"
  | OUnset => JNull
  end.

(** A field of type [Grade | null]. *)
Definition grade_val (g : option Grade.t) : JsVal :=
  match g with
  | Some g => JStr (Grade.val g)
  | None => JNull
  end.

Definition derivation_rule (g : option Grade.t) (attendance withheld : JsVal)
  : CourseOutcome :=
  match g with
  | Some g => OGrade g
  | None =>
      if decide (attendance = JStr "Absent") then OAbsent
      else if decide (withheld = JStr "With held for Malpractice")
           then OGrade Grade.F
      else if decide (withheld = JStr "Withheld") then OWithheld
      else OUnset
  end.

(** The lines of the input that are not empty. *)
Definition non_empty_lines (file : string) : list string :=
  List.filter (fun l => negb (String.eqb l "")) (split_lines file).

Definition starts_with_LF (s : string) : bool :=
  match s with
  | String c _ => Ascii.eqb c LF
  | EmptyString => false
  end.

(** A header line as [split_lines] delivers it: without the CR of a CR LF
    line ending. *)
Fixpoint chomp_CR (s : string) : string :=
  match s with
  | EmptyString => EmptyString
  | String c s' =>
      match s' with
      | EmptyString => if Ascii.eqb c CR then EmptyString else s
      | String _ _ => String c (chomp_CR s')
      end
  end.

(** The text of a file read by [parseCsv]. *)
Definition text_file (file : string) : ReaderEvent :=
  Load (Some (ResultString file)).

(** The header with a comma in the place of every semicolon, character
    by character, and the text with LF in the place of every CR LF: what
    the specification expects the CSV library to receive. *)
Definition semicolons_as_commas (s : string) : string :=
  String.string_of_list_ascii
    (map (fun c : ascii => if Ascii.eqb c ";" then ","%char else c)
         (String.list_ascii_of_string s)).

Fixpoint crlf_to_lf (s : string) : string :=
  match s with
  | EmptyString => EmptyString
  | String c s' =>
      if Ascii.eqb c CR && starts_with_LF s' then crlf_to_lf s'
      else String c (crlf_to_lf s')
  end.

Definition contains_CR (s : string) : bool :=
  existsb (fun c => Ascii.eqb c CR) (String.list_ascii_of_string s).

(** A parser stand-in that keeps the text it is given, for the examples. *)
Definition keep_text (text : string) : list ResultType :=
  [ {| registerNo := JStr text; studentName := JNull; branch := JNull;
       semester := JNull; course := JNull; examType := JNull;
       attendance := JNull; withheld := JNull; iMark := JNull;
       grade := JNull; result := JNull |} ].

Definition contains_LF (s : string) : bool :=
  existsb (fun c => Ascii.eqb c LF) (String.list_ascii_of_string s).

(** *** Words and blanks of a header *)

Definition all_chars (p : ascii -> bool) (s : string) : bool :=
  forallb p (String.list_ascii_of_string s).

(** A non-empty run of [\w] characters, and a non-empty run of white
    space. *)
Definition is_word_string (w : string) : Prop :=
  w <> EmptyString /\ all_chars is_word w = true.

Definition is_blank (s : string) : Prop :=
  s <> EmptyString /\ all_chars is_space s = true.

Definition uncapitalize (w : string) : string :=
  match w with
  | EmptyString => EmptyString
  | String c w' => String (word_toLowerCase c) w'
  end.

Definition capitalize (w : string) : string :=
  match w with
  | EmptyString => EmptyString
  | String c w' => String (word_toUpperCase c) w'
  end.

(** Words, each after its separator, and the same words capitalised and
    run together. *)
Fixpoint spaced (rest : list (string * string)) : string :=
  match rest with
  | [] => EmptyString
  | (sep, w) :: rest' => sep +:+ w +:+ spaced rest'
  end.

Fixpoint capitalized (rest : list (string * string)) : string :=
  match rest with
  | [] => EmptyString
  | (_, w) :: rest' => capitalize w +:+ capitalized rest'
  end.


(** [replace_camel] depends on the offset only through [index === 0] and
    on the preceding character only through [\w]. *)
Fixpoint camel (first prev_word : bool) (s : string) : string :=
  match s with
  | EmptyString => EmptyString
  | String c s' =>
      String (if (first && is_word c) || is_upper c
                 || (is_word c && negb prev_word)
              then if first then word_toLowerCase c else word_toUpperCase c
              else c)
             (camel false (is_word c) s')
  end.

(** ** Pieces of [convertToXlsx]

    The worksheet library is not part of the repository; the computations
    of [convertToXlsx] that do not go through it are modelled here. *)

(** The callback of [data.map] (lines 137-143): the object literal
    [{ ...item, ...item.grades, grades: undefined }].  A property of the
    literal holds a primitive or, for [grades] before it is overwritten,
    the object of the student. *)
Inductive PropVal : Type :=
  | Prim (v : JsVal)
  | Ref (o : JsObj).

Fixpoint prop_get (k : string) (l : list (string * PropVal)) : option PropVal :=
  match l with
  | [] => None
  | (k', v) :: l' => if String.eqb k' k then Some v else prop_get k l'
  end.

(** A property definition in an object literal: an existing key keeps its
    place and takes the new value, a new key comes last. *)
Fixpoint define_property (k : string) (v : PropVal)
    (l : list (string * PropVal)) : list (string * PropVal) :=
  match l with
  | [] => [(k, v)]
  | (k', v') :: l' =>
      if String.eqb k' k then (k', v) :: l'
      else (k', v') :: define_property k v l'
  end.

(** The own properties of a student, in the order of lines 94-110. *)
Definition item_properties (item : FormattedType) : list (string * PropVal) :=
  [("registerNo", Prim (f_registerNo item));
   ("studentName", Prim (f_studentName item));
   ("branch", Prim (f_branch item));
   ("semester", Prim (f_semester item));
   ("examType", Prim (f_examType item));
   ("grades", Ref (grades item));
   ("withheld", Prim (f_withheld item))].

(** [...g] inside a literal: every own key of [g], as enumerated, is
    defined with its value. *)
Definition spread (g : JsObj) (l : list (string * PropVal))
  : list (string * PropVal) :=
  fold_left
    (fun l k =>
       match obj_get k g with
       | Some v => define_property k (Prim v) l
       | None => l
       end)
    (Object_keys g) l.

Definition reFormat_item (item : FormattedType) : list (string * PropVal) :=
  define_property "grades" (Prim JUndefined)
    (spread (grades item) (item_properties item)).

(** The sort of lines 144-152.  [a < b] compares two strings by their code
    units; on other operands it converts them to numbers, and that
    conversion is left as a parameter.  [Array.prototype.sort] is stable,
    and for a consistent comparison function its result is the sorted
    permutation that the insertion sort below computes. *)
Section Sorting.

Variable less_than_numeric : JsVal -> JsVal -> bool.

Definition less_than (a b : JsVal) : bool :=
  match a, b with
  | JStr x, JStr y => String.ltb x y
  | _, _ => less_than_numeric a b
  end.

(** [a.studentName] for a row of the sheet; the property always holds a
    primitive. *)
Definition studentName_of (a : list (string * PropVal)) : JsVal :=
  match prop_get "studentName" a with
  | Some (Prim v) => v
  | _ => JUndefined
  end.

(** The comparison function of lines 144-152. *)
Definition by_studentName (a b : list (string * PropVal)) : Z :=
  if less_than (studentName_of a) (studentName_of b) then -1
  else if less_than (studentName_of b) (studentName_of a) then 1
  else 0.

Fixpoint sort_insert {A} (compareFn : A -> A -> Z) (x : A) (l : list A)
  : list A :=
  match l with
  | [] => [x]
  | y :: l' =>
      if compareFn x y <=? 0 then x :: l
      else y :: sort_insert compareFn x l'
  end.

Fixpoint sort {A} (compareFn : A -> A -> Z) (l : list A) : list A :=
  match l with
  | [] => []
  | x :: l' => sort_insert compareFn x (sort compareFn l')
  end.

Definition reFormattedData (data : list FormattedType)
  : list (list (string * PropVal)) :=
  sort by_studentName (reFormat_item <$> data).

End Sorting.

(** The name of a row when it is a text. *)
Definition text_name (a : list (string * PropVal)) : option string :=
  match studentName_of a with
  | JStr x => Some x
  | _ => None
  end.

(** The merged ranges of lines 183-202, for the list of courses. *)
Module Sheet.
Record CellAddress : Type := mkAddress { r : Z; c : Z }.
Record Range : Type := mkRange { s : CellAddress; e : CellAddress }.
End Sheet.

Definition merges (courses : list string) : list Sheet.Range :=
  let n := Z.of_nat (length courses) in
  [ Sheet.mkRange (Sheet.mkAddress 0 0) (Sheet.mkAddress 0 (5 + n));
    Sheet.mkRange (Sheet.mkAddress 1 0) (Sheet.mkAddress 1 (5 + n));
    Sheet.mkRange (Sheet.mkAddress 2 5) (Sheet.mkAddress 2 (5 + n - 1)) ]
  ++ ((fun i => Sheet.mkRange (Sheet.mkAddress 2 i) (Sheet.mkAddress 3 i))
        <$> seqZ 0 5).

(** The cell of the title of the course at [index] (line 246), and the
    cell F3 of the caption (line 205). *)
Definition title_address (index : nat) : Sheet.CellAddress :=
  Sheet.mkAddress 3 (Z.of_nat index + 5).

Definition caption_address : Sheet.CellAddress := Sheet.mkAddress 2 5.

Definition in_range (a : Sheet.CellAddress) (rg : Sheet.Range) : Prop :=
  Sheet.r (Sheet.s rg) <= Sheet.r a <= Sheet.r (Sheet.e rg) /\
  Sheet.c (Sheet.s rg) <= Sheet.c a <= Sheet.c (Sheet.e rg).

(** [s.split(sep)] for a separator of one character, and the title
    [course.split("-")[1]] of line 248, absent when there is no second
    piece. *)
Definition add_piece_char (c : ascii) (ps : list string) : list string :=
  match ps with
  | [] => [String c EmptyString]
  | p :: ps' => String c p :: ps'
  end.

Fixpoint split_on (sep : ascii) (s : string) : list string :=
  match s with
  | EmptyString => [EmptyString]
  | String c s' =>
      if Ascii.eqb c sep then EmptyString :: split_on sep s'
      else add_piece_char c (split_on sep s')
  end.

Definition course_title (course : string) : option string :=
  split_on "-" course !! 1%nat.

Definition has_char (a : ascii) (s : string) : bool :=
  existsb (Ascii.eqb a) (String.list_ascii_of_string s).

(** The styling loop of lines 264-291.  A cell object of the library
    holds a text when its type [t] is ["s"]; the worksheet maps the
    address of a cell, row and column, to its cell object, and
    [e_r], [e_c] are the last row and column of its range. *)
Inductive CellValue : Type :=
  | TextCell (v : string)
  | OtherCell (t : string) (v : JsVal).

Record CellStyle : Type := mkStyle {
  border_thin : bool;
  fill : option string
}.

Record Cell : Type := mkCell {
  cell_value : CellValue;
  cell_style : option CellStyle
}.

Definition Worksheet : Type := Z -> Z -> option Cell.

(** The array [ws["!cols"]] of column widths, with holes. *)
Definition Widths : Type := Z -> option Z.

Definition no_widths : Widths := fun _ => None.

Definition widths_set (C : Z) (wch : Z) (cols : Widths) : Widths :=
  fun C' => if decide (C' = C) then Some wch else cols C'.

Definition ws_set (R C : Z) (cell : Cell) (ws : Worksheet) : Worksheet :=
  fun R' C' => if decide (R' = R /\ C' = C) then Some cell else ws R' C'.

(** [cell.t === "s" && cell.v === text]. *)
Definition is_text (value : CellValue) (text : string) : bool :=
  match value with
  | TextCell v => String.eqb v text
  | OtherCell _ _ => false
  end.

(** The style that lines 268-284 give to a cell. *)
Definition style_for (value : CellValue) : CellStyle :=
  let s := mkStyle true None in
  let s := if is_text value "Absent"
           then mkStyle (border_thin s) (Some "ff9797") else s in
  let s := if is_text value "F"
           then mkStyle (border_thin s) (Some "ff9797") else s in
  let s := if is_text value "Withheld"
           then mkStyle (border_thin s) (Some "bf819e") else s in
  s.

(** The body of the inner loop, on the worksheet and on [ws["!cols"]],
    which is undefined until a first width is set. *)
Definition style_cell (R C : Z) (st : Worksheet * option Widths)
  : Worksheet * option Widths :=
  let '(ws, cols) := st in
  match ws R C with
  | None => st
  | Some cell =>
      let ws := ws_set R C (mkCell (cell_value cell)
                                   (Some (style_for (cell_value cell)))) ws in
      match cell_value cell with
      | TextCell v =>
          if bool_decide (C ∈ [1; 2; 3; 4])
          then (ws, Some (widths_set C (Z.of_nat (String.length v) + 5)
                                      (default no_widths cols)))
          else (ws, cols)
      | OtherCell _ _ => (ws, cols)
      end
  end.

Definition style_rows (Rs Cs : list Z) (st : Worksheet * option Widths)
  : Worksheet * option Widths :=
  fold_left (fun st R => fold_left (fun st C => style_cell R C st) Cs st) Rs st.

Definition style_cells (e_r e_c : Z) (ws : Worksheet)
  : Worksheet * option Widths :=
  style_rows (seqZ 4 (e_r - 4 + 1)) (seqZ 0 (e_c + 1)) (ws, None).

(** A cell after the loop has visited it. *)
Definition restyled (cell : Cell) : Cell :=
  mkCell (cell_value cell) (Some (style_for (cell_value cell))).

(** The text of a cell, and the text of the first of the rows [Rs] that
    has one in column [C]. *)
Definition text_at (ws : Worksheet) (R C : Z) : option string :=
  match ws R C with
  | Some (mkCell (TextCell v) _) => Some v
  | _ => None
  end.

Fixpoint first_text (ws : Worksheet) (C : Z) (Rs : list Z) : option string :=
  match Rs with
  | [] => None
  | R :: Rs' =>
      match text_at ws R C with
      | Some v => Some v
      | None => first_text ws C Rs'
      end
  end.

(** The width recorded for a column. *)
Definition width_of (cols : option Widths) (C : Z) : option Z :=
  cols ≫= (fun m => m C).

(** ** Line endings *)

Definition join_crlf (lines : list string) : string :=
  String.concat (String CR (String LF EmptyString)) lines.

Fixpoint ends_with_CR (s : string) : bool :=
  match s with
  | EmptyString => false
  | String c s' =>
      match s' with
      | EmptyString => Ascii.eqb c CR
      | String _ _ => ends_with_CR s'
      end
  end.

(** A line as a text editor shows it: no line feed in it and no carriage
    return at its end. *)
Definition plain_line (l : string) : Prop :=
  contains_LF l = false /\ ends_with_CR l = false.

(** ** Sample data for the examples *)

Definition row (r : JsVal) (c : string) (g att wh : JsVal) : ResultType :=
  {| registerNo := r; studentName := JStr "Asha"; branch := JStr "CT";
     semester := JNum 4; course := JStr c; examType := JStr "Regular";
     attendance := att; withheld := wh; iMark := JNull; grade := g;
     result := JNull |}.

Definition student (r : JsVal) (g : list (string * JsVal)) : FormattedType :=
  {| f_registerNo := r; f_studentName := JStr "Asha"; f_branch := JStr "CT";
     f_semester := JNum 4; f_examType := JStr "Regular";
     grades := mkObj g false; f_withheld := JNull |}.

(** A header line that ends with a line break, and nothing else. *)
Definition header_only : string :=
  "Register No,Student Name,Course,Grade" +:+ String LF EmptyString.

(** * Properties *)

(** ** Strict equality and keys *)

Lemma strict_eq_iff (a b : JsVal) : strict_eq a b = true <-> a = b.
Proof.
  destruct a, b; simpl; split; intros H; try discriminate; try reflexivity.
  - f_equal. by apply Bool.eqb_prop.
  - injection H as ->. apply Bool.eqb_reflx.
  - f_equal. by apply Z.eqb_eq.
  - injection H as ->. apply Z.eqb_refl.
  - f_equal. by apply String.eqb_eq.
  - injection H as ->. apply String.eqb_refl.
Qed.

Lemma strict_eq_refl (a : JsVal) : strict_eq a a = true.
Proof. by apply strict_eq_iff. Qed.

Lemma strict_eq_false_iff (a b : JsVal) : strict_eq a b = false <-> a <> b.
Proof.
  rewrite <- strict_eq_iff. destruct (strict_eq a b); split; congruence.
Qed.

Lemma strict_eq_sym (a b : JsVal) : strict_eq a b = strict_eq b a.
Proof.
  destruct (strict_eq b a) eqn:E.
  - apply strict_eq_iff. symmetry. by apply strict_eq_iff.
  - apply strict_eq_false_iff. intros ->. by rewrite strict_eq_refl in E.
Qed.

(** ** [findIndex] *)

Lemma findIndex_from_none {A} (p : A -> bool) l i :
  Forall (fun x => p x = false) l -> findIndex_from p l i = -1.
Proof.
  intros H. revert i. induction H as [|x l Hx _ IH]; intros i; simpl.
  - reflexivity.
  - rewrite Hx. apply IH.
Qed.

Lemma findIndex_from_first {A} (p : A -> bool) l1 x l2 i :
  Forall (fun y => p y = false) l1 -> p x = true ->
  findIndex_from p (l1 ++ x :: l2) i = i + Z.of_nat (length l1).
Proof.
  intros H Hx. revert i. induction H as [|y l1 Hy _ IH]; intros i; simpl.
  - rewrite Hx. lia.
  - rewrite Hy, IH. lia.
Qed.

(** Either no element satisfies [p], or the list splits at the first one
    that does. *)
Lemma first_split {A} (p : A -> bool) (l : list A) :
  Forall (fun x => p x = false) l \/
  exists l1 x l2, l = l1 ++ x :: l2 /\
    Forall (fun y => p y = false) l1 /\ p x = true.
Proof.
  induction l as [|y l IH].
  - left. constructor.
  - destruct (p y) eqn:Hy.
    + right. exists [], y, l. repeat split; [constructor | done].
    + destruct IH as [IH | (l1 & x & l2 & -> & H1 & Hx)].
      * left. by constructor.
      * right. exists (y :: l1), x, l2. repeat split; [by constructor | done].
Qed.

Lemma findIndex_none {A} (p : A -> bool) l :
  Forall (fun x => p x = false) l -> findIndex p l = -1.
Proof. apply findIndex_from_none. Qed.

Lemma findIndex_first {A} (p : A -> bool) l1 x l2 :
  Forall (fun y => p y = false) l1 -> p x = true ->
  findIndex p (l1 ++ x :: l2) = Z.of_nat (length l1).
Proof. intros H Hx. unfold findIndex. by rewrite findIndex_from_first. Qed.

(** ** One step of [formatData] *)

Lemma step_push fd item :
  Forall (differs item) fd ->
  formatData_step fd item = Normal (fd ++ [seed_entry item]).
Proof.
  intros H. unfold formatData_step.
  rewrite (findIndex_none _ fd) by exact H. reflexivity.
Qed.

Lemma step_overwrite l1 i l2 item :
  Forall (differs item) l1 ->
  strict_eq (f_registerNo i) (registerNo item) = true ->
  formatData_step (l1 ++ i :: l2) item
  = Normal (l1 ++ overwrite_entry item i :: l2).
Proof.
  intros H Hi. unfold formatData_step.
  rewrite (findIndex_first _ l1 i l2) by done.
  destruct (Z.eqb_spec (Z.of_nat (length l1)) (-1)) as [E|_]; [lia|].
  rewrite Nat2Z.id, list_lookup_middle by done.
  f_equal. rewrite insert_app_r_alt, Nat.sub_diag by lia. reflexivity.
Qed.

Lemma step_total fd item : exists fd', formatData_step fd item = Normal fd'.
Proof.
  destruct (first_split
              (fun i => strict_eq (f_registerNo i) (registerNo item)) fd)
    as [H | (l1 & i & l2 & -> & H1 & Hi)].
  - eexists. by apply step_push.
  - eexists. by apply step_overwrite.
Qed.

(** ** The loop *)

Lemma forEach_app {A St} (f : St -> A -> Completion St) l1 l2 s :
  forEach f (l1 ++ l2) s = (s' ← forEach f l1 s; forEach f l2 s').
Proof.
  revert s. induction l1 as [|x l1 IH]; intros s; simpl; [done|].
  destruct (f s x) as [s'|e]; simpl; [apply IH | done].
Qed.

Lemma formatData_snoc data item :
  formatData (data ++ [item])
  = (fd ← formatData data; formatData_step fd item).
Proof.
  unfold formatData. rewrite forEach_app.
  destruct (forEach formatData_step data []) as [fd|e]; simpl; [|done].
  by destruct (formatData_step fd item).
Qed.

Lemma formatData_total data : exists out, formatData data = Normal out.
Proof.
  induction data as [|item data IH] using rev_ind.
  - by exists [].
  - destruct IH as [fd Hfd]. rewrite formatData_snoc, Hfd. simpl.
    apply step_total.
Qed.

(** The two ways in which a run over [data ++ [item]] extends a run over
    [data]. *)
Lemma formatData_snoc_inv data item out' :
  formatData (data ++ [item]) = Normal out' ->
  exists out, formatData data = Normal out /\
    ((Forall (differs item) out /\ out' = out ++ [seed_entry item]) \/
     (exists l1 i l2, out = l1 ++ i :: l2 /\ Forall (differs item) l1 /\
        f_registerNo i = registerNo item /\
        out' = l1 ++ overwrite_entry item i :: l2)).
Proof.
  rewrite formatData_snoc. destruct (formatData_total data) as [out Hout].
  rewrite Hout. simpl. intros Hstep. exists out. split; [done|].
  destruct (first_split
              (fun i => strict_eq (f_registerNo i) (registerNo item)) out)
    as [H | (l1 & i & l2 & -> & H1 & Hi)].
  - left. split; [done|]. rewrite step_push in Hstep by done. congruence.
  - right. exists l1, i, l2. rewrite step_overwrite in Hstep by done.
    repeat split; [done | by apply strict_eq_iff | congruence].
Qed.

(** ** First-seen lists *)

Section FirstSeen.
Context {A : Type} `{EqDecision A}.
Implicit Types (l : list A) (x y : A).

Lemma first_seen_elem l x : x ∈ first_seen l <-> x ∈ l.
Proof.
  induction l as [|y l IH]; simpl; [done|].
  rewrite !elem_of_cons, list_elem_of_filter, IH.
  destruct (decide (x = y)); tauto.
Qed.

Lemma first_seen_NoDup l : NoDup (first_seen l).
Proof.
  induction l as [|y l IH]; simpl; [constructor|].
  apply NoDup_cons. split; [|by apply NoDup_filter].
  rewrite list_elem_of_filter. tauto.
Qed.

Lemma first_seen_snoc l x :
  first_seen (l ++ [x])
  = if decide (x ∈ l) then first_seen l else first_seen l ++ [x].
Proof.
  induction l as [|y l IH]; simpl; [done|].
  rewrite IH. clear IH.
  destruct (decide (x ∈ y :: l)) as [Hin|Hin]; rewrite elem_of_cons in Hin.
  - destruct (decide (x ∈ l)); [done|].
    destruct Hin as [->|]; [|done].
    by rewrite filter_app, filter_singleton_False, app_nil_r by naive_solver.
  - rewrite decide_False by naive_solver.
    by rewrite filter_app, filter_singleton_True by naive_solver.
Qed.

Lemma filter_all (P : A -> Prop) `{forall x, Decision (P x)} l :
  Forall P l -> filter P l = l.
Proof.
  induction 1 as [|x l Hx _ IH]; [done|].
  by rewrite filter_cons_True, IH.
Qed.

(** A list without duplicates is its own first-seen list. *)
Lemma first_seen_id l : NoDup l -> first_seen l = l.
Proof.
  induction 1 as [|x l Hx _ IH]; simpl; [done|]. rewrite IH. f_equal.
  apply filter_all, Forall_forall. intros y Hy ->. by apply Hx.
Qed.
End FirstSeen.

Section FirstSeenOrder.
Context {A : Type} `{EqDecision A}.
Implicit Types (l : list A) (x y : A).

(** Order by first occurrence: when [x] stands before [y] in the
    first-seen list, [x] has occurred in [l] before [y] occurs at all. *)
Lemma first_seen_order l i j x y :
  (first_seen l) !! i = Some x -> (first_seen l) !! j = Some y ->
  (i < j)%nat ->
  exists l1 l2, l = l1 ++ y :: l2 /\ (y ∉ l1) /\ x ∈ l1.
Proof.
  revert i j x y. induction l as [|z l IH] using rev_ind; intros i j x y.
  - simpl. by rewrite lookup_nil.
  - rewrite first_seen_snoc. destruct (decide (z ∈ l)) as [Hz|Hz].
    + intros Hi Hj Hlt. destruct (IH _ _ _ _ Hi Hj Hlt) as (l1 & l2 & -> & ? & ?).
      exists l1, (l2 ++ [z]). by rewrite <- app_assoc.
    + intros Hi Hj Hlt.
      destruct (decide (j < length (first_seen l))%nat) as [Hlen|Hlen].
      * rewrite lookup_app_l in Hi, Hj by lia.
        destruct (IH _ _ _ _ Hi Hj Hlt) as (l1 & l2 & -> & ? & ?).
        exists l1, (l2 ++ [z]). by rewrite <- app_assoc.
      * rewrite lookup_app_r in Hj by lia.
        apply list_lookup_singleton_Some in Hj as [Hj <-].
        rewrite lookup_app_l in Hi by lia.
        exists l, []. repeat split; [done|].
        apply first_seen_elem. by eapply list_elem_of_lookup_2.
Qed.
End FirstSeenOrder.

(** ** Register numbers of the output *)

Lemma differs_not_elem item (out : list FormattedType) :
  Forall (differs item) out <-> registerNo item ∉ f_registerNo <$> out.
Proof.
  rewrite Forall_forall, list_elem_of_fmap. unfold differs. split.
  - intros H (i & Hr & Hi). apply H in Hi.
    apply strict_eq_false_iff in Hi. congruence.
  - intros H i Hi. apply strict_eq_false_iff. intros Hr. apply H. by exists i.
Qed.

Lemma f_registerNo_overwrite item i :
  f_registerNo (overwrite_entry item i) = f_registerNo i.
Proof. reflexivity. Qed.

Lemma formatData_registerNos data out :
  formatData data = Normal out ->
  f_registerNo <$> out = first_seen (registerNo <$> data).
Proof.
  revert out. induction data as [|item data IH] using rev_ind; intros out' H.
  - by injection H as <-.
  - rewrite fmap_app, list_fmap_singleton, first_seen_snoc.
    apply formatData_snoc_inv in H
      as (out & Hout & [[Hd ->] | (l1 & i & l2 & -> & Hd & Hi & ->)]);
      specialize (IH _ Hout).
    + apply differs_not_elem in Hd. rewrite IH, first_seen_elem in Hd.
      rewrite decide_False by done. by rewrite fmap_app, IH.
    + rewrite decide_True.
      * by rewrite <- IH, !fmap_app, !fmap_cons.
      * apply first_seen_elem. rewrite <- IH, fmap_app, fmap_cons, Hi.
        apply elem_of_app. right. left.
Qed.

Lemma formatData_registerNos_NoDup data out :
  formatData data = Normal out -> NoDup (f_registerNo <$> out).
Proof.
  intros H. rewrite (formatData_registerNos _ _ H). apply first_seen_NoDup.
Qed.

(** ** Objects *)

Lemma has_own_elem k o : has_own k o = true <-> k ∈ own_keys o.
Proof.
  unfold has_own, own_keys. induction (props o) as [|[k' v] l IH]; simpl.
  - split; [done | by intros ?%elem_of_nil].
  - rewrite elem_of_cons, Bool.orb_true_iff, IH, String.eqb_eq. simpl.
    split; (intros [?|?]; [left | right]); done.
Qed.

Lemma has_own_not_elem k o : has_own k o = false <-> k ∉ own_keys o.
Proof.
  rewrite <- has_own_elem. destruct (has_own k o); split; congruence.
Qed.

Lemma assoc_update_keys k v l : (assoc_update k v l).*1 = l.*1.
Proof.
  induction l as [|[k' v'] l IH]; [done|]. cbn [assoc_update].
  destruct (String.eqb k' k); [done | by rewrite !fmap_cons, IH].
Qed.

Lemma assoc_get_update_eq k v l :
  k ∈ l.*1 -> assoc_get k (assoc_update k v l) = Some v.
Proof.
  induction l as [|[k' v'] l IH]; simpl.
  - by intros ?%elem_of_nil.
  - rewrite elem_of_cons. intros Hin.
    destruct (String.eqb k' k) eqn:E; simpl; rewrite E; [done|].
    apply IH. destruct Hin as [->|]; [|done].
    by rewrite String.eqb_refl in E.
Qed.

Lemma assoc_get_update_ne k k' v l :
  k' <> k -> assoc_get k' (assoc_update k v l) = assoc_get k' l.
Proof.
  intros Hne. induction l as [|[k0 v0] l IH]; simpl; [done|].
  destruct (String.eqb k0 k) eqn:E; simpl.
  - apply String.eqb_eq in E as ->.
    by rewrite (proj2 (String.eqb_neq k k')) by done.
  - by rewrite IH.
Qed.

Lemma assoc_get_snoc_eq k v l :
  k ∉ l.*1 -> assoc_get k (l ++ [(k, v)]) = Some v.
Proof.
  induction l as [|[k' v'] l IH]; simpl.
  - intros _. by rewrite String.eqb_refl.
  - rewrite not_elem_of_cons. intros [Hne Hin].
    rewrite (proj2 (String.eqb_neq k' k)) by done. by apply IH.
Qed.

Lemma assoc_get_snoc_ne k k' v l :
  k' <> k -> assoc_get k' (l ++ [(k, v)]) = assoc_get k' l.
Proof.
  intros Hne. induction l as [|[k0 v0] l IH]; simpl.
  - by rewrite (proj2 (String.eqb_neq k k')) by done.
  - by rewrite IH.
Qed.

Lemma obj_set_cases k v o :
  (k ∈ own_keys o /\
     obj_set k v o = mkObj (assoc_update k v (props o)) (proto_null o)) \/
  ((k ∉ own_keys o) /\ k = "__proto__" /\ proto_null o = false /\
     obj_set k v o = match v with JNull => mkObj (props o) true | _ => o end) \/
  ((k ∉ own_keys o) /\ (k <> "__proto__" \/ proto_null o = true) /\
     obj_set k v o = mkObj (props o ++ [(k, v)]) (proto_null o)).
Proof.
  unfold obj_set. destruct (has_own k o) eqn:Hown.
  - left. by apply has_own_elem in Hown.
  - apply has_own_not_elem in Hown. right.
    destruct (String.eqb_spec k "__proto__") as [->|Hne]; simpl.
    + destruct (proto_null o) eqn:Hp; simpl; [right | left]; auto.
    + right. auto.
Qed.

Lemma obj_get_set_eq k v o :
  writes k o -> obj_get k (obj_set k v o) = Some v.
Proof.
  intros Hw. unfold obj_get.
  destruct (obj_set_cases k v o)
    as [[Hin ->] | [(Hin & -> & Hp & _) | (Hin & _ & ->)]]; simpl.
  - by apply assoc_get_update_eq.
  - destruct Hw as [? | [? | ?]]; [done | done | congruence].
  - by apply assoc_get_snoc_eq.
Qed.

Lemma obj_get_set_ne k k' v o :
  k' <> k -> obj_get k' (obj_set k v o) = obj_get k' o.
Proof.
  intros Hne. unfold obj_get.
  destruct (obj_set_cases k v o)
    as [[Hin ->] | [(Hin & _ & Hp & ->) | (Hin & _ & ->)]]; simpl.
  - by apply assoc_get_update_ne.
  - by destruct v.
  - by apply assoc_get_snoc_ne.
Qed.

Lemma own_keys_set k v o :
  k <> "__proto__" ->
  own_keys (obj_set k v o)
  = if decide (k ∈ own_keys o) then own_keys o else own_keys o ++ [k].
Proof.
  intros Hne.
  destruct (obj_set_cases k v o)
    as [[Hin ->] | [(Hin & -> & _) | (Hin & _ & ->)]]; unfold own_keys; simpl.
  - rewrite decide_True by done. apply assoc_update_keys.
  - done.
  - rewrite decide_False by done. by rewrite fmap_app.
Qed.

Lemma assoc_get_update_inv k k' v v' l :
  assoc_get k' (assoc_update k v l) = Some v' ->
  (k' = k /\ v' = v) \/ assoc_get k' l = Some v'.
Proof.
  destruct (decide (k' = k)) as [->|Hne].
  - destruct (decide (k ∈ l.*1)) as [Hin|Hin].
    + rewrite assoc_get_update_eq by done. intros [= <-]. by left.
    + intros H. right. revert H. clear -Hin.
      induction l as [|[k0 v0] l IH]; [done|].
      rewrite fmap_cons, not_elem_of_cons in Hin. destruct Hin as [Hne Hin].
      cbn [assoc_update assoc_get]. simpl in Hne.
      rewrite (proj2 (String.eqb_neq k0 k)) by done.
      cbn [assoc_get]. rewrite (proj2 (String.eqb_neq k0 k)) by done. auto.
  - rewrite assoc_get_update_ne by done. auto.
Qed.

Lemma assoc_get_snoc_inv k k' v v' l :
  assoc_get k' (l ++ [(k, v)]) = Some v' ->
  (k' = k /\ v' = v) \/ assoc_get k' l = Some v'.
Proof.
  induction l as [|[k0 v0] l IH]; simpl.
  - destruct (String.eqb_spec k k') as [->|_]; [|done].
    intros [= <-]. by left.
  - destruct (String.eqb k0 k'); auto.
Qed.

(** A value read after [o[k] = v] is [v] or was there before. *)
Lemma obj_get_set_inv k k' v v' o :
  obj_get k' (obj_set k v o) = Some v' ->
  (k' = k /\ v' = v) \/ obj_get k' o = Some v'.
Proof.
  unfold obj_get.
  destruct (obj_set_cases k v o)
    as [[_ ->] | [(_ & _ & _ & ->) | (_ & _ & ->)]]; simpl.
  - apply assoc_get_update_inv.
  - destruct v; auto.
  - apply assoc_get_snoc_inv.
Qed.

(** ** Rows of a student *)

Lemma rows_of_snoc r data item :
  rows_of r (data ++ [item])
  = rows_of r data ++ (if decide (registerNo item = r) then [item] else []).
Proof. unfold rows_of. by rewrite filter_app, (filter_singleton _ _ []). Qed.

Lemma rows_of_nil r data : r ∉ registerNo <$> data -> rows_of r data = [].
Proof.
  intros Hr. unfold rows_of. induction data as [|item data IH]; [done|].
  rewrite fmap_cons, not_elem_of_cons in Hr. destruct Hr as [Hne Hr].
  rewrite filter_cons_False by congruence. by apply IH.
Qed.

Lemma course_keys_of_snoc r data item :
  course_keys_of r (data ++ [item])
  = course_keys_of r data ++
    (if decide (registerNo item = r) then [to_property_key (course item)]
     else []).
Proof.
  unfold course_keys_of. rewrite rows_of_snoc, fmap_app.
  by destruct (decide (registerNo item = r)).
Qed.

Lemma first_row_snoc_Some r data item item0 :
  first_row r data = Some item0 -> first_row r (data ++ [item]) = Some item0.
Proof.
  unfold first_row. rewrite rows_of_snoc.
  destruct (rows_of r data); [done|]. done.
Qed.

(** ** Descriptive fields come from the first row *)

Lemma same_metadata_overwrite item i item0 :
  same_metadata i item0 -> same_metadata (overwrite_entry item i) item0.
Proof. done. Qed.

Lemma formatData_first_row data out i :
  formatData data = Normal out -> i ∈ out ->
  exists item, first_row (f_registerNo i) data = Some item /\
               same_metadata i item.
Proof.
  revert out i. induction data as [|item data IH] using rev_ind;
    intros out' i0 H Hin.
  - injection H as <-. by apply elem_of_nil in Hin.
  - apply formatData_snoc_inv in H
      as (out & Hout & [[Hd ->] | (l1 & i & l2 & -> & Hd & Hi & ->)]).
    + apply elem_of_app in Hin as [Hin | ->%list_elem_of_singleton].
      * destruct (IH _ _ Hout Hin) as (item0 & H0 & Hm).
        exists item0. split; [by apply first_row_snoc_Some | done].
      * exists item. split; [|by repeat split].
        apply differs_not_elem in Hd.
        rewrite (formatData_registerNos _ _ Hout), first_seen_elem in Hd.
        unfold first_row. rewrite rows_of_snoc, rows_of_nil by done.
        simpl. by rewrite decide_True.
    + assert (exists i', i' ∈ l1 ++ i :: l2 /\
                f_registerNo i0 = f_registerNo i' /\
                forall item0, same_metadata i' item0 -> same_metadata i0 item0)
        as (i' & Hin' & Hr & Hm').
      { rewrite elem_of_app, elem_of_cons in Hin.
        destruct Hin as [Hin | [-> | Hin]].
        - exists i0. rewrite elem_of_app. auto.
        - exists i. rewrite elem_of_app, elem_of_cons. auto.
        - exists i0. rewrite elem_of_app, elem_of_cons. auto. }
      destruct (IH _ _ Hout Hin') as (item0 & H0 & Hm).
      exists item0. rewrite Hr. split; [by apply first_row_snoc_Some | auto].
Qed.

(** ** Creation order of the keys of [grades] *)

Lemma formatData_own_keys data out i :
  formatData data = Normal out -> i ∈ out ->
  "__proto__" ∉ course_keys_of (f_registerNo i) data ->
  own_keys (grades i) = first_seen (course_keys_of (f_registerNo i) data).
Proof.
  revert out i. induction data as [|item data IH] using rev_ind;
    intros out' i0 H Hin.
  - injection H as <-. by apply elem_of_nil in Hin.
  - pose proof (formatData_snoc_inv _ _ _ H)
      as (out & Hout & [[Hd ->] | (l1 & i & l2 & -> & Hd & Hi & ->)]).
    + apply elem_of_app in Hin as [Hin | ->%list_elem_of_singleton].
      * rewrite course_keys_of_snoc, decide_False, app_nil_r.
        -- by apply IH with out.
        -- intros Hr. rewrite Forall_forall in Hd. apply Hd in Hin.
           apply strict_eq_false_iff in Hin. congruence.
      * intros _. apply differs_not_elem in Hd.
        rewrite (formatData_registerNos _ _ Hout), first_seen_elem in Hd.
        unfold course_keys_of. simpl.
        rewrite rows_of_snoc, rows_of_nil, decide_True by done. done.
    + pose proof (formatData_registerNos_NoDup _ _ Hout) as Hnd.
      rewrite fmap_app, fmap_cons in Hnd.
      apply NoDup_app in Hnd as (_ & _ & [Hl2 _]%NoDup_cons).
      rewrite elem_of_app, elem_of_cons in Hin.
      destruct Hin as [Hin | [-> | Hin]].
      * rewrite course_keys_of_snoc, decide_False, app_nil_r.
        -- apply IH with (l1 ++ i :: l2); [done|]. apply elem_of_app. auto.
        -- intros Hr. rewrite Forall_forall in Hd. apply Hd in Hin.
           apply strict_eq_false_iff in Hin. congruence.
      * rewrite f_registerNo_overwrite, course_keys_of_snoc.
        rewrite decide_True by done. rewrite not_elem_of_app.
        intros [Hp Hk%not_elem_of_cons]. destruct Hk as [Hk _].
        assert (i ∈ l1 ++ i :: l2) as Hi' by (apply elem_of_app; right; left).
        specialize (IH _ _ Hout Hi' Hp).
        unfold overwrite_entry. simpl.
        rewrite own_keys_set, first_seen_snoc, IH by done.
        destruct (decide (to_property_key (course item)
                          ∈ course_keys_of (f_registerNo i) data)) as [Hc|Hc].
        -- by rewrite decide_True by by apply first_seen_elem.
        -- by rewrite decide_False by by rewrite first_seen_elem.
      * rewrite course_keys_of_snoc, decide_False, app_nil_r.
        -- apply IH with (l1 ++ i :: l2); [done|].
           apply elem_of_app. right. by right.
        -- intros Hr. apply Hl2. rewrite Hi, Hr.
           by apply list_elem_of_fmap_2.
Qed.

(** ** Enumeration order *)

Lemma insert_index_perm n k l : insert_index n k l ≡ₚ (n, k) :: l.
Proof.
  induction l as [|[m k'] l IH]; simpl; [done|].
  destruct (n <=? m)%N; [done|]. rewrite IH. apply Permutation_swap.
Qed.

Lemma insert_index_sorted n k l :
  StronglySorted index_le l -> StronglySorted index_le (insert_index n k l).
Proof.
  induction 1 as [|[m k'] l Hs IH Hall]; simpl.
  - repeat constructor.
  - destruct (N.leb_spec n m) as [Hle|Hlt].
    + constructor; [by constructor|]. constructor; [done|].
      eapply Forall_impl; [exact Hall|]. unfold index_le. simpl. intros; lia.
    + constructor; [done|]. rewrite insert_index_perm.
      constructor; [|done]. unfold index_le. simpl. lia.
Qed.

Lemma index_keys_sorted ks : StronglySorted index_le (index_keys ks).
Proof.
  induction ks as [|k ks IH]; simpl; [constructor|].
  destruct (array_index k); [by apply insert_index_sorted | done].
Qed.

Lemma index_keys_index ks :
  Forall (fun p => array_index p.2 = Some p.1) (index_keys ks).
Proof.
  induction ks as [|k ks IH]; simpl; [constructor|].
  destruct (array_index k) as [n|] eqn:E; [|done].
  rewrite insert_index_perm. by constructor.
Qed.

Lemma index_keys_perm ks :
  (index_keys ks).*2 ≡ₚ filter (fun k => ~ array_index k = None) ks.
Proof.
  induction ks as [|k ks IH]; simpl; [done|].
  destruct (array_index k) as [n|] eqn:E.
  - rewrite insert_index_perm, fmap_cons, filter_cons_True by congruence.
    simpl. by rewrite IH.
  - by rewrite filter_cons_False by tauto.
Qed.

Lemma index_keys_none ks :
  Forall (fun k => array_index k = None) ks -> index_keys ks = [].
Proof.
  induction 1 as [|k ks Hk _ IH]; simpl; [done|]. by rewrite Hk.
Qed.

Lemma Object_keys_perm o : Object_keys o ≡ₚ own_keys o.
Proof.
  unfold Object_keys. rewrite index_keys_perm, Permutation_app_comm.
  apply filter_app_complement.
Qed.

Lemma Object_keys_no_index o :
  Forall (fun k => array_index k = None) (own_keys o) ->
  Object_keys o = own_keys o.
Proof.
  intros H. unfold Object_keys. rewrite index_keys_none by done.
  by apply filter_all.
Qed.

(** ** The element of a row does not move *)









(** ** [getAllCourses] collects first-seen keys *)

Lemma includes_elem c cs : includes c cs = true <-> c ∈ cs.
Proof.
  unfold includes. induction cs as [|c' cs IH]; simpl.
  - split; [done | by intros ?%elem_of_nil].
  - rewrite elem_of_cons, Bool.orb_true_iff, IH, String.eqb_eq. done.
Qed.

Lemma scan_keys ks pre :
  fold_left (fun courses course =>
               if negb (includes course courses) then courses ++ [course]
               else courses) ks (first_seen pre)
  = first_seen (pre ++ ks).
Proof.
  revert pre. induction ks as [|k ks IH]; intros pre; simpl.
  - by rewrite app_nil_r.
  - rewrite (cons_middle k pre ks), app_assoc, <- IH, first_seen_snoc.
    f_equal. destruct (includes k (first_seen pre)) eqn:E; simpl.
    + rewrite includes_elem, first_seen_elem in E. by rewrite decide_True.
    + rewrite decide_False; [done|]. intros Hin.
      rewrite <- (first_seen_elem pre), <- includes_elem in Hin. congruence.
Qed.

Lemma scan_items data pre :
  fold_left
    (fun courses item =>
       fold_left
         (fun courses course =>
            if negb (includes course courses) then courses ++ [course]
            else courses)
         (Object_keys (grades item)) courses)
    data (first_seen pre)
  = first_seen (pre ++ scanned_keys data).
Proof.
  revert pre. induction data as [|item data IH]; intros pre.
  - by rewrite app_nil_r.
  - cbn [fold_left]. rewrite scan_keys, IH. unfold scanned_keys.
    by rewrite bind_cons, app_assoc.
Qed.

(** ** Lines *)

Lemma split_lines_step c s :
  split_lines (String c s)
  = if Ascii.eqb c LF then EmptyString :: split_lines s
    else if Ascii.eqb c CR && starts_with_LF s then split_lines s
    else add_char c (split_lines s).
Proof.
  cbn [split_lines]. destruct (Ascii.eqb c LF); [done|].
  destruct s as [|c' s]; simpl; [by rewrite Bool.andb_false_r|].
  destruct (Ascii.eqb c CR && Ascii.eqb c' LF) eqn:E; [|done].
  apply andb_prop in E as [_ ->]. done.
Qed.

Lemma contains_LF_cons c s :
  contains_LF (String c s) = Ascii.eqb c LF || contains_LF s.
Proof. reflexivity. Qed.

Lemma starts_with_contains s : starts_with_LF s = true -> contains_LF s = true.
Proof.
  destruct s as [|c s]; [done|]. rewrite contains_LF_cons.
  cbn [starts_with_LF]. by intros ->.
Qed.

Lemma split_lines_length_pos s : (1 <= length (split_lines s))%nat.
Proof.
  induction s as [|c s IH]; [simpl; lia|]. rewrite split_lines_step.
  destruct (Ascii.eqb c LF); [simpl; lia|].
  destruct (Ascii.eqb c CR && starts_with_LF s); [done|].
  destruct (split_lines s); simpl in *; lia.
Qed.

Lemma add_char_length c ls :
  (1 <= length ls)%nat -> length (add_char c ls) = length ls.
Proof. destruct ls; simpl; [lia | done]. Qed.

Lemma split_lines_no_LF s : contains_LF s = false -> split_lines s = [s].
Proof.
  induction s as [|c s IH]; [done|].
  rewrite contains_LF_cons, split_lines_step.
  intros [Hc Hs]%Bool.orb_false_elim. rewrite Hc.
  destruct (starts_with_LF s) eqn:E.
  - apply starts_with_contains in E. congruence.
  - rewrite Bool.andb_false_r, IH by done. done.
Qed.

Lemma split_lines_LF s :
  contains_LF s = true -> (2 <= length (split_lines s))%nat.
Proof.
  induction s as [|c s IH]; [done|].
  rewrite contains_LF_cons, split_lines_step.
  pose proof (split_lines_length_pos s) as Hpos.
  destruct (Ascii.eqb c LF); simpl; [lia|]. intros Hs.
  destruct (Ascii.eqb c CR && starts_with_LF s); [by apply IH|].
  rewrite add_char_length by done. by apply IH.
Qed.

(** The emptiness test of line 54 is a test for a line break. *)
Lemma few_lines_iff s :
  (Z.of_nat (length (split_lines s)) <? 2) = negb (contains_LF s).
Proof.
  destruct (contains_LF s) eqn:E; simpl.
  - apply split_lines_LF in E. apply Z.ltb_ge. lia.
  - by rewrite split_lines_no_LF.
Qed.

Lemma split_lines_header h body :
  contains_LF h = false ->
  split_lines (h +:+ String LF body) = chomp_CR h :: split_lines body.
Proof.
  induction h as [|c h IH]; [done|].
  rewrite contains_LF_cons. intros [Hc Hh]%Bool.orb_false_elim.
  change (String c h +:+ String LF body)
    with (String c (h +:+ String LF body)).
  rewrite split_lines_step, Hc, IH by done.
  destruct h as [|c' h]; simpl.
  - by destruct (Ascii.eqb c CR).
  - rewrite contains_LF_cons in Hh. apply Bool.orb_false_elim in Hh as [-> _].
    by rewrite Bool.andb_false_r.
Qed.

Lemma contains_LF_replaceAll h :
  contains_LF (replaceAll ";" "," h) = contains_LF h.
Proof.
  induction h as [|c h IH]; [done|]. simpl replaceAll.
  rewrite !contains_LF_cons, IH. f_equal.
  destruct (Ascii.eqb_spec c ";") as [->|_]; done.
Qed.

Lemma chomp_CR_replaceAll h :
  chomp_CR (replaceAll ";" "," h) = replaceAll ";" "," (chomp_CR h).
Proof.
  induction h as [|c h IH]; [done|].
  destruct h as [|c' h].
  - cbn [replaceAll chomp_CR].
    destruct (Ascii.eqb_spec c ";") as [->|Hne]; [done|].
    destruct (Ascii.eqb c CR); [done|]. cbn [replaceAll].
    by rewrite (proj2 (Ascii.eqb_neq c ";")).
  - change (replaceAll ";" "," (String c (String c' h)))
      with (String (if Ascii.eqb c ";" then "," else c)
                   (replaceAll ";" "," (String c' h))).
    change (chomp_CR (String c (String c' h)))
      with (String c (chomp_CR (String c' h))).
    change (replaceAll ";" "," (String c (chomp_CR (String c' h))))
      with (String (if Ascii.eqb c ";" then "," else c)
                   (replaceAll ";" "," (chomp_CR (String c' h)))).
    rewrite <- IH. reflexivity.
Qed.

Lemma replaceAll_idem s :
  replaceAll ";" "," (replaceAll ";" "," s) = replaceAll ";" "," s.
Proof.
  induction s as [|c s IH]; [done|]. simpl. rewrite IH. f_equal.
  destruct (Ascii.eqb_spec c ";") as [->|Hne]; [done|].
  by rewrite (proj2 (Ascii.eqb_neq c ";")).
Qed.

Lemma replaceAll_no_semicolon s :
  ";"%char ∉ String.list_ascii_of_string (replaceAll ";" "," s).
Proof.
  induction s as [|c s IH]; simpl; [by intros ?%elem_of_nil|].
  rewrite not_elem_of_cons. split; [|done].
  destruct (Ascii.eqb_spec c ";") as [->|Hne]; [done | congruence].
Qed.

(** ** What [parseCsv] does with a text *)

Lemma parseCsv_text Papa_parse file :
  parseCsv Papa_parse (text_file file)
  = if contains_LF file then
      Normal (Some (onSuccess (Papa_parse (join_lines
        match split_lines file with
        | line0 :: rest => replaceAll ";" "," line0 :: rest
        | [] => []
        end))))
    else Normal (Some (onError "File is empty")).
Proof.
  unfold text_file, parseCsv. rewrite few_lines_iff.
  destruct (contains_LF file); simpl; [|done].
  pose proof (split_lines_length_pos file).
  destruct (split_lines file); simpl in *; [lia | done].
Qed.

(** ** A row of a student already seen *)

Lemma seen_split data out item :
  formatData data = Normal out ->
  registerNo item ∈ registerNo <$> data ->
  exists l1 i l2, out = l1 ++ i :: l2 /\ Forall (differs item) l1 /\
    f_registerNo i = registerNo item /\
    formatData (data ++ [item]) = Normal (l1 ++ overwrite_entry item i :: l2).
Proof.
  intros Hout Hin. rewrite formatData_snoc, Hout. simpl.
  destruct (first_split
              (fun i => strict_eq (f_registerNo i) (registerNo item)) out)
    as [H | (l1 & i & l2 & -> & H1 & Hi)].
  - apply differs_not_elem in H.
    rewrite (formatData_registerNos _ _ Hout), first_seen_elem in H. done.
  - exists l1, i, l2. rewrite step_overwrite by done.
    repeat split; [done | by apply strict_eq_iff].
Qed.

Lemma seed_outcome_derivation item g :
  grade item = grade_val g ->
  seed_outcome item
  = outcome_val (derivation_rule g (attendance item) (withheld item)).
Proof.
  unfold seed_outcome. intros ->. destruct g as [g|]; simpl.
  - by destruct g.
  - destruct (strict_eq (attendance item) (JStr "Absent")) eqn:Ea;
      [apply strict_eq_iff in Ea | apply strict_eq_false_iff in Ea];
      [by rewrite decide_True | rewrite decide_False by done].
    destruct (strict_eq (withheld item) (JStr "With held for Malpractice"))
      eqn:Em;
      [apply strict_eq_iff in Em | apply strict_eq_false_iff in Em];
      [by rewrite decide_True | rewrite decide_False by done].
    destruct (strict_eq (withheld item) (JStr "Withheld")) eqn:Ew;
      [apply strict_eq_iff in Ew | apply strict_eq_false_iff in Ew];
      [by rewrite decide_True | by rewrite decide_False].
Qed.

(** * The claims *)

(** C1.  For every input, [formatData] returns one element per distinct
    [registerNo] of the input, in the order of the first occurrences: the
    register numbers of the output are the first-seen list of those of the
    input, without repetition, with the same members, and a register number
    stands before another one only if it occurs in the input before the
    other one does. *)
Theorem formatData_one_per_registerNo (data : list ResultType) :
  exists out, formatData data = Normal out /\
    f_registerNo <$> out = first_seen (registerNo <$> data) /\
    NoDup (f_registerNo <$> out) /\
    (forall r, r ∈ f_registerNo <$> out <-> r ∈ registerNo <$> data) /\
    (forall m n x y,
        (f_registerNo <$> out) !! m = Some x ->
        (f_registerNo <$> out) !! n = Some y -> (m < n)%nat ->
        exists l1 l2, registerNo <$> data = l1 ++ y :: l2 /\
                      (y ∉ l1) /\ x ∈ l1).
Proof.
  destruct (formatData_total data) as [out Hout]. exists out.
  pose proof (formatData_registerNos _ _ Hout) as Hr.
  split; [done|]. split; [done|]. rewrite Hr.
  split; [apply first_seen_NoDup|].
  split; [intros r; apply first_seen_elem|].
  intros m n x y. apply first_seen_order.
Qed.

(** C2.  For the first row of a register number, with a [grade] field that
    is null or a member of [Grade], the outcome stored for the row's course
    is the one the precedence chain of the specification gives: the grade
    when there is one, else Absent, else F for malpractice, else Withheld,
    else null. *)
Theorem seed_follows_derivation_rule data out item g :
  formatData data = Normal out ->
  registerNo item ∉ registerNo <$> data ->
  grade item = grade_val g ->
  exists i, formatData (data ++ [item]) = Normal (out ++ [i]) /\
    f_registerNo i = registerNo item /\
    grades i = obj_literal (to_property_key (course item))
                 (outcome_val
                    (derivation_rule g (attendance item) (withheld item))).
Proof.
  intros Hout Hnew Hg. exists (seed_entry item).
  rewrite formatData_snoc, Hout. simpl. split; [|split; [done|]].
  - apply step_push, differs_not_elem.
    by rewrite (formatData_registerNos _ _ Hout), first_seen_elem.
  - simpl. by rewrite (seed_outcome_derivation item g).
Qed.

Lemma seed_follows_derivation_rule_witness :
  exists i,
    formatData ([row (JNum 7) "C1" (JStr "A") (JStr "Present") JNull]
                ++ [row (JNum 8) "C1" JNull (JStr "Present")
                        (JStr "With held for Malpractice")])
    = Normal ([student (JNum 7) [("C1", JStr "A")]] ++ [i]) /\
    f_registerNo i = JNum 8 /\
    grades i = obj_literal "C1" (JStr "F").
Proof.
  apply (seed_follows_derivation_rule
           [row (JNum 7) "C1" (JStr "A") (JStr "Present") JNull]
           [student (JNum 7) [("C1", JStr "A")]]
           (row (JNum 8) "C1" JNull (JStr "Present")
                (JStr "With held for Malpractice"))
           None).
  - reflexivity.
  - intros H. apply list_elem_of_singleton in H. discriminate H.
  - reflexivity.
Defined.

(** C3 at the course key [__proto__].  The second row belongs to a student
    already seen, so line 113 assigns its grade; on a plain object that
    assignment reaches the prototype accessor, and no outcome is stored
    under the row's course, although the object literal of line 100 does
    store one under the same key for a first row. *)
Lemma overwrite_ignores_proto_key :
  formatData [row (JNum 1) "C1" (JStr "A") (JStr "Present") JNull;
              row (JNum 1) "__proto__" (JStr "B") (JStr "Present") JNull]
  = Normal [student (JNum 1) [("C1", JStr "A")]] /\
  obj_get "__proto__" (grades (student (JNum 1) [("C1", JStr "A")])) = None.
Proof. split; reflexivity. Qed.

(** Away from that key the overwrite path does what C3 says: for a row
    whose register number already has an element and whose course key is
    not [__proto__], the raw [grade] field is stored as the outcome of the
    course in that element, whatever the attendance and withheld fields of
    the row and whatever was stored before. *)
Theorem overwrite_stores_raw_grade data out item :
  formatData data = Normal out ->
  registerNo item ∈ registerNo <$> data ->
  to_property_key (course item) <> "__proto__" ->
  exists out' n i i', formatData (data ++ [item]) = Normal out' /\
    out !! n = Some i /\ out' !! n = Some i' /\
    f_registerNo i = registerNo item /\
    f_registerNo i' = registerNo item /\
    obj_get (to_property_key (course item)) (grades i') = Some (grade item).
Proof.
  intros Hout Hin Hk.
  destruct (seen_split _ _ _ Hout Hin) as (l1 & i & l2 & -> & Hd & Hi & Hrun).
  exists (l1 ++ overwrite_entry item i :: l2), (length l1), i,
         (overwrite_entry item i).
  rewrite !list_lookup_middle by done. repeat split; try done.
  unfold overwrite_entry. simpl. apply obj_get_set_eq. right. by left.
Qed.

Lemma overwrite_stores_raw_grade_witness :
  exists out' n i i',
    formatData ([row (JNum 1) "C1" (JStr "A") (JStr "Present") JNull]
                ++ [row (JNum 1) "C1" JNull (JStr "Absent") JNull])
    = Normal out' /\
    [student (JNum 1) [("C1", JStr "A")]] !! n = Some i /\
    out' !! n = Some i' /\
    f_registerNo i = JNum 1 /\ f_registerNo i' = JNum 1 /\
    obj_get "C1" (grades i') = Some JNull.
Proof.
  apply (overwrite_stores_raw_grade
           [row (JNum 1) "C1" (JStr "A") (JStr "Present") JNull]
           [student (JNum 1) [("C1", JStr "A")]]
           (row (JNum 1) "C1" JNull (JStr "Absent") JNull)).
  - reflexivity.
  - apply list_elem_of_singleton. reflexivity.
  - discriminate.
Defined.

(** C4, as stated, fails in two ways: keys that are array indices are
    enumerated in numeric order, not in first-seen order; and the course
    key [__proto__] of a later row is dropped. *)
Lemma grades_keys_counterexample :
  (formatData [row (JNum 1) "2" (JStr "A") (JStr "Present") JNull;
               row (JNum 1) "1" (JStr "B") (JStr "Present") JNull]
   = Normal [student (JNum 1) [("2", JStr "A"); ("1", JStr "B")]] /\
   Object_keys (grades (student (JNum 1) [("2", JStr "A"); ("1", JStr "B")]))
   = ["1"; "2"] /\
   first_seen (course_keys_of (JNum 1)
     [row (JNum 1) "2" (JStr "A") (JStr "Present") JNull;
      row (JNum 1) "1" (JStr "B") (JStr "Present") JNull])
   = ["2"; "1"]) /\
  (formatData [row (JNum 1) "C1" (JStr "A") (JStr "Present") JNull;
               row (JNum 1) "__proto__" (JStr "B") (JStr "Present") JNull]
   = Normal [student (JNum 1) [("C1", JStr "A")]] /\
   Object_keys (grades (student (JNum 1) [("C1", JStr "A")])) = ["C1"] /\
   first_seen (course_keys_of (JNum 1)
     [row (JNum 1) "C1" (JStr "A") (JStr "Present") JNull;
      row (JNum 1) "__proto__" (JStr "B") (JStr "Present") JNull])
   = ["C1"; "__proto__"]).
Proof. repeat split; reflexivity. Qed.

(** C4, amended.  For every student of the output none of whose rows has
    the course key [__proto__]: the keys of [grades] are the distinct course
    keys of the student's rows, none dropped and none repeated, created in
    first-seen order; [Object.keys] lists the array indices among them
    first, in ascending numeric order, and then the other keys in
    first-seen order, hence all keys in first-seen order when none is an
    array index. *)
Theorem grades_keys_of_student data out i :
  formatData data = Normal out -> i ∈ out ->
  "__proto__" ∉ course_keys_of (f_registerNo i) data ->
  own_keys (grades i) = first_seen (course_keys_of (f_registerNo i) data) /\
  (forall k, k ∈ Object_keys (grades i)
             <-> k ∈ course_keys_of (f_registerNo i) data) /\
  NoDup (Object_keys (grades i)) /\
  (exists idx,
      Object_keys (grades i)
      = idx.*2 ++ filter (fun k => array_index k = None)
                    (first_seen (course_keys_of (f_registerNo i) data)) /\
      Forall (fun p => array_index p.2 = Some p.1) idx /\
      StronglySorted index_le idx) /\
  (Forall (fun k => array_index k = None)
          (course_keys_of (f_registerNo i) data) ->
   Object_keys (grades i)
   = first_seen (course_keys_of (f_registerNo i) data)).
Proof.
  intros Hout Hin Hp.
  pose proof (formatData_own_keys _ _ _ Hout Hin Hp) as Hk.
  split; [done|]. split; [|split; [|split]].
  - intros k. by rewrite Object_keys_perm, Hk, first_seen_elem.
  - rewrite Object_keys_perm, Hk. apply first_seen_NoDup.
  - exists (index_keys (own_keys (grades i))). unfold Object_keys.
    rewrite Hk. split; [done|].
    split; [apply index_keys_index | apply index_keys_sorted].
  - intros Hnone. rewrite Object_keys_no_index; [done|]. rewrite Hk.
    apply Forall_forall. intros k Hin'. rewrite first_seen_elem in Hin'.
    rewrite Forall_forall in Hnone. by apply Hnone.
Qed.

Lemma grades_keys_of_student_witness :
  own_keys (grades (student (JNum 1) [("M2", JStr "A"); ("M1", JNull)]))
  = first_seen (course_keys_of (JNum 1)
      [row (JNum 1) "M2" (JStr "A") (JStr "Present") JNull;
       row (JNum 2) "M1" (JStr "C") (JStr "Present") JNull;
       row (JNum 1) "M1" (JStr "B") (JStr "Present") JNull;
       row (JNum 1) "M1" JNull (JStr "Absent") JNull]) /\
  Object_keys (grades (student (JNum 1) [("M2", JStr "A"); ("M1", JNull)]))
  = ["M2"; "M1"].
Proof.
  pose proof (grades_keys_of_student
    [row (JNum 1) "M2" (JStr "A") (JStr "Present") JNull;
     row (JNum 2) "M1" (JStr "C") (JStr "Present") JNull;
     row (JNum 1) "M1" (JStr "B") (JStr "Present") JNull;
     row (JNum 1) "M1" JNull (JStr "Absent") JNull]
    [student (JNum 1) [("M2", JStr "A"); ("M1", JNull)];
     student (JNum 2) [("M1", JStr "C")]]
    (student (JNum 1) [("M2", JStr "A"); ("M1", JNull)])) as H.
  destruct H as (Hkeys & _ & _ & _ & Horder).
  - reflexivity.
  - left.
  - intros Hin. apply elem_of_cons in Hin as [Hin | Hin]; [discriminate|].
    apply elem_of_cons in Hin as [Hin | Hin]; [discriminate|].
    apply elem_of_cons in Hin as [Hin | Hin]; [discriminate|].
    by apply elem_of_nil in Hin.
  - split; [exact Hkeys|]. apply Horder. repeat constructor.
Defined.


(** C6, as stated, fails: a header line that ends with a line break has a
    single non-empty line, and [parseCsv] does not report the empty file,
    whatever the CSV library does with the text. *)
Lemma header_with_line_break_accepted :
  length (non_empty_lines header_only) = 1%nat /\
  ~ (exists Papa_parse,
        parseCsv Papa_parse (text_file header_only)
        = Normal (Some (onError "File is empty"))).
Proof.
  split; [reflexivity|]. intros [Papa_parse H].
  rewrite parseCsv_text in H. discriminate H.
Qed.

(** C6, amended.  [parseCsv] reports the empty file exactly when the text,
    split on CR LF or LF, has fewer than two lines, empty lines counted,
    that is when it contains no line break; the rows are then not handed
    on.  A text with a line break always reaches the success callback. *)
Theorem parseCsv_empty_iff_no_line_break
    (Papa_parse : string -> list ResultType) (file : string) :
  (parseCsv Papa_parse (text_file file)
   = Normal (Some (onError "File is empty"))
   <-> (length (split_lines file) < 2)%nat) /\
  ((length (split_lines file) < 2)%nat <-> contains_LF file = false) /\
  (parseCsv Papa_parse (text_file file)
   = Normal (Some (onError "File is empty")) \/
   exists text, parseCsv Papa_parse (text_file file)
                = Normal (Some (onSuccess (Papa_parse text)))).
Proof.
  rewrite parseCsv_text. pose proof (few_lines_iff file) as Hfew.
  destruct (contains_LF file) eqn:E; simpl in Hfew.
  - apply Z.ltb_ge in Hfew. repeat split; try (intros; done || lia).
    right. by eexists.
  - apply Z.ltb_lt in Hfew. repeat split; try (intros; done || lia).
    by left.
Qed.

(** C7.  A row of a register number already seen changes one element of
    the array only, and in it only the outcome stored under the row's
    course key: the array keeps its length and its other elements, the
    element keeps its descriptive fields and the outcomes of all the other
    keys in their order; and after the row, as before, every element
    carries the descriptive fields of the first row of its student. *)
Theorem overwrite_frame data out item :
  formatData data = Normal out ->
  registerNo item ∈ registerNo <$> data ->
  exists out' n i i', formatData (data ++ [item]) = Normal out' /\
    out !! n = Some i /\ out' !! n = Some i' /\
    f_registerNo i = registerNo item /\
    length out' = length out /\
    (forall m, m <> n -> out' !! m = out !! m) /\
    (f_registerNo i' = f_registerNo i /\ f_studentName i' = f_studentName i /\
     f_branch i' = f_branch i /\ f_semester i' = f_semester i /\
     f_examType i' = f_examType i /\ f_withheld i' = f_withheld i) /\
    (forall k, k <> to_property_key (course item) ->
               obj_get k (grades i') = obj_get k (grades i)) /\
    (exists new, own_keys (grades i') = own_keys (grades i) ++ new) /\
    (forall i1, i1 ∈ out' ->
       exists item1, first_row (f_registerNo i1) (data ++ [item]) = Some item1 /\
                     same_metadata i1 item1).
Proof.
  intros Hout Hin.
  destruct (seen_split _ _ _ Hout Hin) as (l1 & i & l2 & -> & Hd & Hi & Hrun).
  exists (l1 ++ overwrite_entry item i :: l2), (length l1), i,
         (overwrite_entry item i).
  rewrite !list_lookup_middle by done.
  split; [done|]. split; [done|]. split; [done|]. split; [done|].
  split; [by rewrite !length_app|].
  split; [|split; [done|split; [|split]]].
  - intros m Hm. destruct (decide (m < length l1)%nat).
    + by rewrite !lookup_app_l by done.
    + rewrite !lookup_app_r by lia.
      destruct (m - length l1)%nat eqn:E; [lia | done].
  - intros k Hk. unfold overwrite_entry. simpl. by apply obj_get_set_ne.
  - unfold overwrite_entry, own_keys. simpl.
    destruct (obj_set_cases (to_property_key (course item)) (grade item)
                            (grades i))
      as [[_ ->] | [(_ & _ & _ & ->) | (_ & _ & ->)]]; simpl.
    + exists []. by rewrite assoc_update_keys, app_nil_r.
    + exists []. rewrite app_nil_r. by destruct (grade item).
    + eexists. by rewrite fmap_app.
  - intros i1 Hi1. by apply formatData_first_row with
      (l1 ++ overwrite_entry item i :: l2).
Qed.

Lemma overwrite_frame_witness :
  exists out' n i i',
    formatData ([row (JNum 1) "C1" (JStr "A") (JStr "Present") JNull;
                 row (JNum 2) "C1" (JStr "B") (JStr "Present") JNull]
                ++ [mkResult (JNum 1) (JStr "Other") (JStr "EL") (JNum 6)
                      (JStr "C2") (JStr "Supplementary") (JStr "Present")
                      (JStr "Withheld") JNull (JStr "D") JNull])
    = Normal out' /\
    [student (JNum 1) [("C1", JStr "A")];
     student (JNum 2) [("C1", JStr "B")]] !! n = Some i /\
    out' !! n = Some i' /\ f_registerNo i = JNum 1 /\
    f_studentName i' = f_studentName i /\ f_withheld i' = f_withheld i /\
    obj_get "C1" (grades i') = obj_get "C1" (grades i).
Proof.
  destruct (overwrite_frame
    [row (JNum 1) "C1" (JStr "A") (JStr "Present") JNull;
     row (JNum 2) "C1" (JStr "B") (JStr "Present") JNull]
    [student (JNum 1) [("C1", JStr "A")];
     student (JNum 2) [("C1", JStr "B")]]
    (mkResult (JNum 1) (JStr "Other") (JStr "EL") (JNum 6)
       (JStr "C2") (JStr "Supplementary") (JStr "Present")
       (JStr "Withheld") JNull (JStr "D") JNull))
    as (out' & n & i & i' & Hrun & Hn & Hn' & Hr & _ & _ & Hm & Hk & _).
  - reflexivity.
  - left.
  - exists out', n, i, i'. destruct Hm as (_ & Hname & _ & _ & _ & Hw).
    repeat split; try assumption. apply Hk. discriminate.
Defined.

Lemma replaceAll_semicolons s :
  replaceAll ";" "," s = semicolons_as_commas s.
Proof.
  unfold semicolons_as_commas. induction s as [|c s IH]; [done|].
  cbn [replaceAll String.list_ascii_of_string map
       String.string_of_list_ascii]. by rewrite IH.
Qed.

Lemma join_lines_cons l ls :
  ls <> [] -> join_lines (l :: ls) = l +:+ String LF (join_lines ls).
Proof. by destruct ls. Qed.

Lemma split_lines_nonempty s : split_lines s <> [].
Proof.
  pose proof (split_lines_length_pos s). destruct (split_lines s); [|done].
  simpl in *. lia.
Qed.

Lemma join_lines_add_char c ls :
  ls <> [] -> join_lines (add_char c ls) = String c (join_lines ls).
Proof. intros Hne. destruct ls as [|l [|l' ls]]; done. Qed.

(** Splitting into lines and joining with LF turns every CR LF into LF
    and changes nothing else. *)
Lemma join_split_lines s : join_lines (split_lines s) = crlf_to_lf s.
Proof.
  induction s as [|c s IH]; [done|]. rewrite split_lines_step.
  cbn [crlf_to_lf]. pose proof (split_lines_nonempty s) as Hne.
  destruct (Ascii.eqb_spec c LF) as [->|Hc].
  - by rewrite join_lines_cons, IH.
  - destruct (Ascii.eqb c CR && starts_with_LF s); [done|].
    by rewrite join_lines_add_char, IH.
Qed.

Lemma crlf_to_lf_no_CR s : contains_CR s = false -> crlf_to_lf s = s.
Proof.
  induction s as [|c s IH]; [done|]. unfold contains_CR.
  cbn [String.list_ascii_of_string existsb crlf_to_lf].
  intros [-> Hs]%Bool.orb_false_elim. simpl. by rewrite IH.
Qed.

Lemma parseCsv_header_body Papa_parse header body :
  contains_LF header = false ->
  parseCsv Papa_parse (text_file (header +:+ String LF body))
  = Normal (Some (onSuccess (Papa_parse
      (semicolons_as_commas (chomp_CR header)
       +:+ String LF (crlf_to_lf body))))).
Proof.
  intros Hh. rewrite parseCsv_text, split_lines_header by done.
  assert (contains_LF (header +:+ String LF body) = true) as ->.
  { clear Hh. induction header as [|c h IH]; [done|].
    change (String c h +:+ String LF body)
      with (String c (h +:+ String LF body)).
    rewrite contains_LF_cons, IH. apply Bool.orb_true_r. }
  rewrite join_lines_cons by apply split_lines_nonempty.
  by rewrite replaceAll_semicolons, join_split_lines.
Qed.

Lemma semicolons_as_commas_chomp h :
  semicolons_as_commas (chomp_CR h) = chomp_CR (semicolons_as_commas h).
Proof. by rewrite <- !replaceAll_semicolons, chomp_CR_replaceAll. Qed.

(** C8.  Only the header line is rewritten.  For a header without line
    break, followed by a line break and any data rows, the text that the
    CSV library receives is the header with a comma in the place of every
    semicolon, a line feed, and the data rows as they are, semicolons
    included, their line ends written LF; it is the data rows verbatim
    when they contain no carriage return.  So two inputs whose headers
    differ only in semicolons written for commas, such as a
    semicolon-delimited header and the all-comma header, give the same
    text and the same records. *)
Theorem header_semicolons_normalised
    (Papa_parse : string -> list ResultType) (header body : string) :
  contains_LF header = false ->
  parseCsv Papa_parse (text_file (header +:+ String LF body))
  = Normal (Some (onSuccess (Papa_parse
      (semicolons_as_commas (chomp_CR header)
       +:+ String LF (crlf_to_lf body))))) /\
  (contains_CR body = false ->
   parseCsv Papa_parse (text_file (header +:+ String LF body))
   = Normal (Some (onSuccess (Papa_parse
       (semicolons_as_commas (chomp_CR header) +:+ String LF body))))) /\
  (forall header',
      contains_LF header' = false ->
      semicolons_as_commas header' = semicolons_as_commas header ->
      parseCsv Papa_parse (text_file (header' +:+ String LF body))
      = parseCsv Papa_parse (text_file (header +:+ String LF body))) /\
  (";"%char ∉ String.list_ascii_of_string
                (semicolons_as_commas (chomp_CR header))).
Proof.
  intros Hh. split; [by apply parseCsv_header_body|]. split; [|split].
  - intros Hcr. rewrite parseCsv_header_body by done.
    by rewrite crlf_to_lf_no_CR.
  - intros header' Hh' Heq. rewrite !parseCsv_header_body by done.
    by rewrite !semicolons_as_commas_chomp, Heq.
  - rewrite <- replaceAll_semicolons. apply replaceAll_no_semicolon.
Qed.

Lemma header_semicolons_normalised_witness :
  parseCsv keep_text (text_file ("Register No;Course;Grade"
                                 +:+ String LF "1,C1;x,A"))
  = Normal (Some (onSuccess (keep_text
      ("Register No,Course,Grade" +:+ String LF "1,C1;x,A")))) /\
  parseCsv keep_text (text_file ("Register No,Course,Grade"
                                 +:+ String LF "1,C1;x,A"))
  = parseCsv keep_text (text_file ("Register No;Course;Grade"
                                   +:+ String LF "1,C1;x,A")).
Proof.
  destruct (header_semicolons_normalised keep_text
              "Register No;Course;Grade" "1,C1;x,A")
    as (_ & Htext & Hsame & _).
  - reflexivity.
  - split.
    + apply Htext. reflexivity.
    + apply Hsame; reflexivity.
Defined.

(** C9.  [formatData] ends normally on every list of rows, whatever
    primitive values their fields hold: the element read at line 113
    always exists.  What the rows hold surfaces as outcome values only:
    every outcome of the output is, for a row of that student and course,
    the raw [grade] field or the value of the conditional chain. *)
Theorem formatData_never_throws (data : list ResultType) :
  exists out, formatData data = Normal out /\
    forall i k v, i ∈ out -> obj_get k (grades i) = Some v ->
      exists item, item ∈ data /\ registerNo item = f_registerNo i /\
        to_property_key (course item) = k /\
        (v = grade item \/ v = seed_outcome item).
Proof.
  destruct (formatData_total data) as [out Hout]. exists out.
  split; [done|]. revert out Hout.
  induction data as [|item data IH] using rev_ind; intros out' H i0 k v Hin Hv.
  - injection H as <-. by apply elem_of_nil in Hin.
  - assert (forall i, (exists item0, item0 ∈ data /\
                registerNo item0 = f_registerNo i /\
                to_property_key (course item0) = k /\
                (v = grade item0 \/ v = seed_outcome item0)) ->
              exists item0, item0 ∈ data ++ [item] /\
                registerNo item0 = f_registerNo i /\
                to_property_key (course item0) = k /\
                (v = grade item0 \/ v = seed_outcome item0)) as Hlift.
    { intros i (item0 & Hin0 & Hrest). exists item0.
      split; [apply elem_of_app; by left | done]. }
    apply formatData_snoc_inv in H
      as (out & Hout & [[Hd ->] | (l1 & i & l2 & -> & Hd & Hi & ->)]).
    + apply elem_of_app in Hin as [Hin | ->%list_elem_of_singleton].
      * apply Hlift. by apply IH with out.
      * exists item. split; [apply elem_of_app; right; left|].
        unfold seed_entry, obj_get in Hv. simpl in Hv.
        destruct (String.eqb_spec (to_property_key (course item)) k)
          as [Hk|_]; [|done].
        injection Hv as <-. auto.
    + rewrite elem_of_app, elem_of_cons in Hin.
      destruct Hin as [Hin | [-> | Hin]].
      * apply Hlift. apply IH with (l1 ++ i :: l2); [done| |done].
        apply elem_of_app. by left.
      * unfold overwrite_entry in Hv. simpl in Hv.
        apply obj_get_set_inv in Hv as [[-> ->] | Hv].
        -- exists item. split; [apply elem_of_app; right; left|]. auto.
        -- apply (Hlift i). apply IH with (l1 ++ i :: l2); [done| |done].
           apply elem_of_app. right. left.
      * apply Hlift. apply IH with (l1 ++ i :: l2); [done| |done].
        apply elem_of_app. right. by right.
Qed.

(** * Further properties of the code *)

(** ** Characters *)

Ltac by_cases_on_char c :=
  destruct c as [[] [] [] [] [] [] [] []]; vm_compute;
  try reflexivity; try discriminate; try (intros; discriminate).

Lemma is_word_not_space c : is_word c = true -> is_space c = false.
Proof. by_cases_on_char c. Qed.

Lemma is_upper_word c : is_upper c = true -> is_word c = true.
Proof. by_cases_on_char c. Qed.

Lemma word_toUpperCase_upper c : is_upper c = true -> word_toUpperCase c = c.
Proof. by_cases_on_char c. Qed.

Lemma word_toUpperCase_other c : is_lower c = false -> word_toUpperCase c = c.
Proof. unfold word_toUpperCase. by intros ->. Qed.



Lemma is_word_toUpperCase c : is_word (word_toUpperCase c) = is_word c.
Proof. by_cases_on_char c. Qed.

Lemma is_word_toLowerCase c : is_word (word_toLowerCase c) = is_word c.
Proof. by_cases_on_char c. Qed.



(** ** Strings *)

Lemma append_cons c s t : String c s +:+ t = String c (s +:+ t).
Proof. reflexivity. Qed.

Lemma append_nil_r s : s +:+ EmptyString = s.
Proof.
  induction s as [|c s IH]; [done|]. by rewrite append_cons, IH.
Qed.

Lemma append_assoc s1 s2 s3 : (s1 +:+ s2) +:+ s3 = s1 +:+ (s2 +:+ s3).
Proof.
  induction s1 as [|c s1 IH]; [done|]. by rewrite !append_cons, IH.
Qed.

Lemma all_chars_cons p c s :
  all_chars p (String c s) = p c && all_chars p s.
Proof. reflexivity. Qed.

Lemma remove_spaces_app s t :
  remove_spaces (s +:+ t) = remove_spaces s +:+ remove_spaces t.
Proof.
  induction s as [|c s IH]; [done|]. rewrite append_cons.
  cbn [remove_spaces]. destruct (is_space c); by rewrite ?append_cons, IH.
Qed.

Lemma remove_spaces_blank s : all_chars is_space s = true -> remove_spaces s = "".
Proof.
  induction s as [|c s IH]; [done|]. rewrite all_chars_cons.
  intros [Hc Hs]%andb_prop. simpl. rewrite Hc. by apply IH.
Qed.

Lemma remove_spaces_word w : all_chars is_word w = true -> remove_spaces w = w.
Proof.
  induction w as [|c w IH]; [done|]. rewrite all_chars_cons.
  intros [Hc Hw]%andb_prop. simpl.
  rewrite (is_word_not_space c Hc), IH by done. done.
Qed.

(** ** [transformHeader] *)

Lemma replace_camel_camel index prev s :
  replace_camel index prev s = camel (Nat.eqb index 0) (prev_is_word prev) s.
Proof.
  revert index prev. induction s as [|c s IH]; intros index prev; [done|].
  cbn [replace_camel camel]. rewrite IH. reflexivity.
Qed.

Lemma transformHeader_camel header :
  transformHeader header = remove_spaces (camel true false header).
Proof. unfold transformHeader. by rewrite replace_camel_camel. Qed.

(** Inside a word nothing changes. *)
Lemma camel_inside w t :
  all_chars is_word w = true ->
  camel false true (w +:+ t) = w +:+ camel false true t.
Proof.
  induction w as [|c w IH]; [done|]. rewrite all_chars_cons.
  intros [Hc Hw]%andb_prop. rewrite !append_cons. cbn [camel].
  rewrite Hc, IH by done. f_equal.
  rewrite Bool.andb_false_r, Bool.orb_false_r. simpl.
  destruct (is_upper c) eqn:Hu; [by apply word_toUpperCase_upper | done].
Qed.

(** The first character of a word is raised, or lowered at offset 0. *)
Lemma camel_word_start first w t :
  is_word_string w ->
  camel first false (w +:+ t)
  = (if first then uncapitalize w else capitalize w) +:+ camel false true t.
Proof.
  intros [Hne Hw]. destruct w as [|c w]; [done|].
  rewrite all_chars_cons in Hw. apply andb_prop in Hw as [Hc Hw].
  rewrite !append_cons. cbn [camel]. rewrite Hc, camel_inside by done.
  rewrite Bool.andb_true_r, Bool.orb_true_r. by destruct first.
Qed.

Lemma camel_blank first prev_word sep t :
  is_blank sep ->
  camel first prev_word (sep +:+ t) = sep +:+ camel false false t.
Proof.
  intros [Hne Hs]. revert first prev_word.
  induction sep as [|c sep IH]; intros first prev_word; [done|].
  rewrite all_chars_cons in Hs. apply andb_prop in Hs as [Hc Hs].
  assert (is_word c = false) as Hw.
  { destruct (is_word c) eqn:E; [|done].
    apply is_word_not_space in E. congruence. }
  assert (is_upper c = false) as Hu.
  { destruct (is_upper c) eqn:E; [|done].
    apply is_upper_word in E. congruence. }
  rewrite !append_cons. cbn [camel].
  rewrite Hw, Hu, Bool.andb_false_r. simpl.
  f_equal. destruct sep as [|c' sep]; [done|]. by apply IH.
Qed.

Lemma remove_spaces_capitalize w :
  all_chars is_word w = true -> remove_spaces (capitalize w) = capitalize w.
Proof.
  intros Hw. apply remove_spaces_word. destruct w as [|c w]; [done|].
  cbn [capitalize]. rewrite all_chars_cons in Hw |- *.
  by rewrite is_word_toUpperCase.
Qed.

Lemma remove_spaces_uncapitalize w :
  all_chars is_word w = true -> remove_spaces (uncapitalize w) = uncapitalize w.
Proof.
  intros Hw. apply remove_spaces_word. destruct w as [|c w]; [done|].
  cbn [uncapitalize]. rewrite all_chars_cons in Hw |- *.
  by rewrite is_word_toLowerCase.
Qed.

Lemma camel_spaced rest :
  Forall (fun p => is_blank p.1 /\ is_word_string p.2) rest ->
  forall first prev_word,
    rest <> [] \/ (first = false /\ prev_word = true) ->
    remove_spaces (camel first prev_word (spaced rest)) = capitalized rest.
Proof.
  induction 1 as [|[sep w] rest [Hsep Hw] _ IH]; intros first prev_word Hst.
  - by destruct Hst as [? | [-> ->]].
  - cbn [spaced capitalized]. simpl in Hsep, Hw.
    rewrite camel_blank, camel_word_start by done.
    rewrite !remove_spaces_app, remove_spaces_blank by apply Hsep.
    rewrite remove_spaces_capitalize by apply Hw.
    rewrite IH by (by right). reflexivity.
Qed.

Lemma letter_cases_differ c :
  is_upper c || is_lower c = true -> word_toUpperCase c <> word_toLowerCase c.
Proof. by_cases_on_char c. Qed.

Lemma camel_header w rest :
  is_word_string w ->
  Forall (fun p => is_blank p.1 /\ is_word_string p.2) rest ->
  remove_spaces (camel true false (w +:+ spaced rest))
  = uncapitalize w +:+ capitalized rest.
Proof.
  intros Hw Hrest. rewrite camel_word_start by done.
  rewrite remove_spaces_app, remove_spaces_uncapitalize by apply Hw.
  f_equal. apply camel_spaced; [done|]. by right.
Qed.

(** X1.  A header of words separated by white space becomes their lower
    camel case: the first word with its first character lowered, every
    other word with its first character raised, the rest of each word as
    it is, and no white space. *)
Theorem transformHeader_words w rest :
  is_word_string w ->
  Forall (fun p => is_blank p.1 /\ is_word_string p.2) rest ->
  transformHeader (w +:+ spaced rest) = uncapitalize w +:+ capitalized rest.
Proof.
  intros Hw Hrest. rewrite transformHeader_camel. by apply camel_header.
Qed.

Lemma transformHeader_words_witness :
  transformHeader ("Register" +:+ spaced [(" ", "No")])
  = uncapitalize "Register" +:+ capitalized [(" ", "No")].
Proof.
  apply (transformHeader_words "Register" [(" ", "No")]).
  - split; [discriminate | reflexivity].
  - repeat constructor; simpl; discriminate.
Defined.

(** X2.  White space before the first word changes the name: the first
    word is then raised like the others instead of lowered, so for a
    header that starts with a letter the result differs from that of the
    header without the leading white space. *)
Theorem transformHeader_leading_blank sep w rest :
  is_blank sep -> is_word_string w ->
  Forall (fun p => is_blank p.1 /\ is_word_string p.2) rest ->
  transformHeader (sep +:+ w +:+ spaced rest)
  = capitalize w +:+ capitalized rest /\
  ((exists c w', w = String c w' /\ is_upper c || is_lower c = true) ->
   transformHeader (sep +:+ w +:+ spaced rest)
   <> transformHeader (w +:+ spaced rest)).
Proof.
  intros Hsep Hw Hrest.
  assert (transformHeader (sep +:+ w +:+ spaced rest)
          = capitalize w +:+ capitalized rest) as Heq.
  { rewrite transformHeader_camel.
    apply (camel_spaced ((sep, w) :: rest)); [by constructor|]. by left. }
  split; [done|]. intros (c & w' & -> & Hc).
  rewrite Heq, (transformHeader_camel (_ +:+ _)), camel_header by done.
  cbn [capitalize uncapitalize]. rewrite !append_cons.
  intros [= Hcase]. by apply letter_cases_differ in Hcase.
Qed.

Lemma transformHeader_leading_blank_witness :
  transformHeader (" " +:+ "Register" +:+ spaced [(" ", "No")])
  = capitalize "Register" +:+ capitalized [(" ", "No")] /\
  transformHeader (" " +:+ "Register" +:+ spaced [(" ", "No")])
  <> transformHeader ("Register" +:+ spaced [(" ", "No")]).
Proof.
  destruct (transformHeader_leading_blank " " "Register" [(" ", "No")])
    as [Heq Hne].
  - split; [discriminate | reflexivity].
  - split; [discriminate | reflexivity].
  - repeat constructor; simpl; discriminate.
  - split; [exact Heq|]. apply Hne. by exists "R"%char, "egister".
Defined.



(** ** More on [formatData] *)

Lemma unique_registerNo data out i j :
  formatData data = Normal out -> i ∈ out -> j ∈ out ->
  f_registerNo i = f_registerNo j -> i = j.
Proof.
  intros Hout Hi Hj Hr. pose proof (formatData_registerNos_NoDup _ _ Hout) as Hnd.
  apply list_elem_of_lookup in Hi as [n Hn].
  apply list_elem_of_lookup in Hj as [m Hm].
  assert (n = m) as ->; [|congruence].
  apply (NoDup_lookup _ n m (f_registerNo i) Hnd).
  - by rewrite list_lookup_fmap, Hn.
  - by rewrite list_lookup_fmap, Hm, Hr.
Qed.

Lemma seen_has_element data out item :
  formatData data = Normal out -> registerNo item ∈ registerNo <$> data ->
  exists i, i ∈ out /\ f_registerNo i = registerNo item.
Proof.
  intros Hout Hin.
  assert (registerNo item ∈ f_registerNo <$> out) as Hr.
  { by rewrite (formatData_registerNos _ _ Hout), first_seen_elem. }
  apply list_elem_of_fmap in Hr as (i & Hr & Hi). by exists i.
Qed.

Lemma last_row_wins_snoc data item out i :
  formatData (data ++ [item]) = Normal out -> i ∈ out ->
  f_registerNo i = registerNo item ->
  to_property_key (course item) <> "__proto__" ->
  obj_get (to_property_key (course item)) (grades i)
  = Some (if decide (registerNo item ∈ registerNo <$> data)
          then grade item else seed_outcome item).
Proof.
  intros Hrun Hin Hr Hk.
  pose proof (formatData_snoc_inv _ _ _ Hrun)
    as (out0 & Hout0 & [[Hd ->] | (l1 & i0 & l2 & -> & Hd & Hi0 & ->)]).
  - apply differs_not_elem in Hd.
    assert (i = seed_entry item) as ->.
    { apply (unique_registerNo _ _ _ _ Hrun Hin); [|done].
      apply elem_of_app. right. left. }
    rewrite (formatData_registerNos _ _ Hout0), first_seen_elem in Hd.
    rewrite decide_False by done. unfold seed_entry, obj_get. simpl.
    by rewrite String.eqb_refl.
  - assert (i = overwrite_entry item i0) as ->.
    { apply (unique_registerNo _ _ _ _ Hrun Hin); [|by rewrite Hr].
      apply elem_of_app. right. left. }
    rewrite decide_True.
    + unfold overwrite_entry. simpl. apply obj_get_set_eq. right. by left.
    + rewrite <- first_seen_elem, <- (formatData_registerNos _ _ Hout0).
      rewrite <- Hi0. apply list_elem_of_fmap_2, elem_of_app. right. left.
Qed.

(** X4.  The outcome of a student in a course comes from the last row of
    that student and course: it is the raw [grade] field of that row, or
    the value of the conditional chain when that row is the first row of
    the student. *)
Theorem formatData_last_row_wins pre item post out i :
  formatData (pre ++ item :: post) = Normal out -> i ∈ out ->
  f_registerNo i = registerNo item ->
  to_property_key (course item) <> "__proto__" ->
  (forall item', item' ∈ post -> registerNo item' = registerNo item ->
     to_property_key (course item') <> to_property_key (course item)) ->
  obj_get (to_property_key (course item)) (grades i)
  = Some (if decide (registerNo item ∈ registerNo <$> pre)
          then grade item else seed_outcome item).
Proof.
  revert out i. induction post as [|last post IH] using rev_ind;
    intros out i Hrun Hin Hr Hk Hlast.
  - by apply last_row_wins_snoc with out.
  - rewrite app_comm_cons, app_assoc in Hrun.
    assert (forall item', item' ∈ post -> registerNo item' = registerNo item ->
              to_property_key (course item') <> to_property_key (course item))
      as Hpost.
    { intros item' Hin'. apply Hlast, elem_of_app. by left. }
    pose proof (formatData_snoc_inv _ _ _ Hrun)
      as (out0 & Hout0 & [[Hd ->] | (l1 & i0 & l2 & -> & Hd & Hi0 & ->)]).
    + apply elem_of_app in Hin as [Hin | ->%list_elem_of_singleton].
      * by apply IH with out0.
      * exfalso. apply differs_not_elem in Hd. apply Hd.
        rewrite (formatData_registerNos _ _ Hout0), first_seen_elem.
        simpl in Hr. rewrite Hr, fmap_app, fmap_cons.
        apply elem_of_app. right. left.
    + rewrite elem_of_app, elem_of_cons in Hin.
      destruct Hin as [Hin | [-> | Hin]].
      * apply IH with (l1 ++ i0 :: l2); try done. apply elem_of_app. by left.
      * simpl in Hr. unfold overwrite_entry. simpl.
        rewrite obj_get_set_ne.
        -- apply IH with (l1 ++ i0 :: l2); try done.
           apply elem_of_app. right. left.
        -- intros Heq. apply (Hlast last); [|congruence|done].
           apply elem_of_app. right. left.
      * apply IH with (l1 ++ i0 :: l2); try done.
        apply elem_of_app. right. by right.
Qed.

Lemma formatData_last_row_wins_witness :
  obj_get "C1" (grades (student (JNum 1) [("C1", JNull); ("C2", JStr "B")]))
  = Some JNull.
Proof.
  apply (formatData_last_row_wins
           [row (JNum 1) "C1" (JStr "A") (JStr "Present") JNull]
           (row (JNum 1) "C1" JNull (JStr "Absent") JNull)
           [row (JNum 1) "C2" (JStr "B") (JStr "Present") JNull]
           [student (JNum 1) [("C1", JNull); ("C2", JStr "B")]]
           (student (JNum 1) [("C1", JNull); ("C2", JStr "B")])).
  - reflexivity.
  - left.
  - reflexivity.
  - discriminate.
  - intros item' Hin _. apply list_elem_of_singleton in Hin as ->.
    discriminate.
Defined.

Lemma formatData_rows_of data out i :
  formatData data = Normal out -> i ∈ out ->
  formatData (rows_of (f_registerNo i) data) = Normal [i].
Proof.
  revert out i. induction data as [|item data IH] using rev_ind;
    intros out' i Hrun Hin.
  - injection Hrun as <-. by apply elem_of_nil in Hin.
  - pose proof (formatData_snoc_inv _ _ _ Hrun)
      as (out & Hout & [[Hd ->] | (l1 & i0 & l2 & -> & Hd & Hi0 & ->)]).
    + apply elem_of_app in Hin as [Hin | ->%list_elem_of_singleton].
      * rewrite rows_of_snoc, decide_False, app_nil_r; [by apply IH with out|].
        intros Hr. rewrite Forall_forall in Hd. apply Hd in Hin.
        apply strict_eq_false_iff in Hin. congruence.
      * apply differs_not_elem in Hd.
        rewrite (formatData_registerNos _ _ Hout), first_seen_elem in Hd.
        simpl. rewrite rows_of_snoc, rows_of_nil, decide_True by done.
        reflexivity.
    + assert (forall j, j ∈ l1 ++ i0 :: l2 -> f_registerNo j <> registerNo item ->
                formatData (rows_of (f_registerNo j) (data ++ [item]))
                = Normal [j]) as Hother.
      { intros j Hj Hne.
        rewrite rows_of_snoc, decide_False, app_nil_r by congruence.
        by apply IH with (l1 ++ i0 :: l2). }
      assert (i0 ∈ l1 ++ i0 :: l2) as Hi0in
        by (apply elem_of_app; right; left).
      rewrite elem_of_app, elem_of_cons in Hin.
      destruct Hin as [Hin | [-> | Hin]].
      * apply Hother; [apply elem_of_app; by left|].
        rewrite Forall_forall in Hd. apply Hd in Hin.
        by apply strict_eq_false_iff in Hin.
      * rewrite f_registerNo_overwrite, rows_of_snoc.
        rewrite decide_True by done.
        rewrite formatData_snoc, (IH _ _ Hout Hi0in). simpl.
        apply (step_overwrite [] i0 []); [constructor|].
        by apply strict_eq_iff.
      * assert (i ∈ l1 ++ i0 :: l2) as Hiin
          by (apply elem_of_app; right; by right).
        apply Hother; [done|]. intros Hr.
        assert (i = i0) as -> by (apply (unique_registerNo _ _ _ _ Hout);
                                  [done | done | congruence]).
        pose proof (formatData_registerNos_NoDup _ _ Hout) as Hnd.
        rewrite fmap_app, fmap_cons in Hnd.
        apply NoDup_app in Hnd as (_ & _ & [Hl2 _]%NoDup_cons).
        apply Hl2. by apply list_elem_of_fmap_2.
Qed.

(** X5.  Each student's element is computed from the rows of that student
    alone: pivoting just those rows gives that element and nothing else. *)
Theorem formatData_per_student data out i :
  formatData data = Normal out -> i ∈ out ->
  formatData (rows_of (f_registerNo i) data) = Normal [i].
Proof. intros Hout Hin. by apply formatData_rows_of with out. Qed.

Lemma formatData_per_student_witness :
  formatData
    (rows_of (f_registerNo (student (JNum 1)
                              [("C1", JStr "A"); ("C2", JStr "D")]))
       [row (JNum 1) "C1" (JStr "A") (JStr "Present") JNull;
        row (JNum 2) "C1" (JStr "B") (JStr "Present") JNull;
        row (JNum 1) "C2" (JStr "D") (JStr "Present") JNull])
  = Normal [student (JNum 1) [("C1", JStr "A"); ("C2", JStr "D")]].
Proof.
  apply (formatData_per_student
    [row (JNum 1) "C1" (JStr "A") (JStr "Present") JNull;
     row (JNum 2) "C1" (JStr "B") (JStr "Present") JNull;
     row (JNum 1) "C2" (JStr "D") (JStr "Present") JNull]
    [student (JNum 1) [("C1", JStr "A"); ("C2", JStr "D")];
     student (JNum 2) [("C1", JStr "B")]]).
  - reflexivity.
  - left.
Defined.

(** Elements of other students in front of the array do not matter. *)
Lemma step_behind base fd item :
  registerNo item ∉ f_registerNo <$> base ->
  formatData_step (base ++ fd) item
  = (fd' ← formatData_step fd item; Normal (base ++ fd')).
Proof.
  intros Hbase. apply differs_not_elem in Hbase.
  destruct (first_split
              (fun i => strict_eq (f_registerNo i) (registerNo item)) fd)
    as [H | (l1 & i & l2 & -> & H1 & Hi)].
  - rewrite (step_push fd), step_push by (done || by apply Forall_app).
    simpl. by rewrite app_assoc.
  - rewrite (step_overwrite l1), app_assoc, step_overwrite
      by (done || by apply Forall_app).
    simpl. by rewrite app_assoc.
Qed.

Lemma forEach_behind base data fd :
  (forall item, item ∈ data -> registerNo item ∉ f_registerNo <$> base) ->
  forEach formatData_step data (base ++ fd)
  = (out ← forEach formatData_step data fd; Normal (base ++ out)).
Proof.
  revert fd. induction data as [|item data IH]; intros fd Hbase; [done|].
  cbn [forEach]. rewrite step_behind by (apply Hbase; left).
  destruct (formatData_step fd item) as [fd'|e]; simpl; [|done].
  apply IH. intros item' Hin. apply Hbase. by right.
Qed.

(** X6.  Pivoting two lists of rows that share no register number, one
    after the other, gives the elements of the first followed by those of
    the second. *)
Theorem formatData_app_disjoint data1 data2 out1 out2 :
  (forall r, r ∈ registerNo <$> data1 -> r ∉ registerNo <$> data2) ->
  formatData data1 = Normal out1 -> formatData data2 = Normal out2 ->
  formatData (data1 ++ data2) = Normal (out1 ++ out2).
Proof.
  intros Hdisj H1 H2. unfold formatData in *. rewrite forEach_app, H1. simpl.
  rewrite <- (app_nil_r out1) at 1. rewrite forEach_behind, H2; [done|].
  intros item Hin Hr.
  rewrite (formatData_registerNos data1 out1 H1), first_seen_elem in Hr.
  apply (Hdisj _ Hr). by apply list_elem_of_fmap_2.
Qed.

Lemma formatData_app_disjoint_witness :
  formatData ([row (JNum 1) "C1" (JStr "A") (JStr "Present") JNull;
               row (JNum 1) "C2" JNull (JStr "Absent") JNull]
              ++ [row (JNum 2) "C1" JNull (JStr "Absent") JNull])
  = Normal ([student (JNum 1) [("C1", JStr "A"); ("C2", JNull)]]
            ++ [student (JNum 2) [("C1", JStr "Absent")]]).
Proof.
  apply formatData_app_disjoint.
  - intros r Hr Hr'. apply list_elem_of_singleton in Hr'. subst r.
    apply elem_of_cons in Hr as [Hr | Hr]; [discriminate|].
    apply list_elem_of_singleton in Hr. discriminate.
  - reflexivity.
  - reflexivity.
Defined.

(** Where a stored outcome comes from. *)
Lemma formatData_outcome_source data out i k v :
  formatData data = Normal out -> i ∈ out -> obj_get k (grades i) = Some v ->
  exists item, item ∈ data /\ registerNo item = f_registerNo i /\
    to_property_key (course item) = k /\
    (v = grade item \/ v = seed_outcome item).
Proof.
  intros Hout Hin Hv.
  pose proof (formatData_rows_of _ _ _ Hout Hin) as Hrows.
  assert (forall rows i, formatData rows = Normal [i] ->
            obj_get k (grades i) = Some v ->
            exists item, item ∈ rows /\ to_property_key (course item) = k /\
              (v = grade item \/ v = seed_outcome item)) as Hgen.
  { clear. induction rows as [|item rows IH] using rev_ind; [done|].
    intros i Hrun Hv.
    apply formatData_snoc_inv in Hrun
      as (out & Hout & [[Hd Heq] | (l1 & i0 & l2 & -> & Hd & Hi0 & Heq)]).
    - destruct out; [|by destruct out]. injection Heq as ->.
      exists item. split; [apply elem_of_app; right; left|].
      unfold seed_entry, obj_get in Hv. simpl in Hv.
      destruct (String.eqb_spec (to_property_key (course item)) k)
        as [Hk|_]; [|done].
      injection Hv as <-. auto.
    - destruct l1; [|by destruct l1]. injection Heq as -> <-.
      unfold overwrite_entry in Hv. simpl in Hv.
      apply obj_get_set_inv in Hv as [[-> ->] | Hv].
      + exists item. split; [apply elem_of_app; right; left | auto].
      + destruct (IH _ Hout Hv) as (item0 & Hin0 & Hrest).
        exists item0. split; [apply elem_of_app; by left | done]. }
  destruct (Hgen _ _ Hrows Hv) as (item & Hitem & Hk & Hval).
  unfold rows_of in Hitem. apply list_elem_of_filter in Hitem as [Hr Hitem].
  by exists item.
Qed.

Lemma seed_outcome_typed item :
  (exists g, grade item = grade_val g) ->
  exists o, seed_outcome item = outcome_val o.
Proof.
  intros [g Hg]. rewrite (seed_outcome_derivation item g Hg). by eexists.
Qed.

(** X7.  When the [grade] field of every row is null or a member of
    [Grade], every outcome of the output is a member of [Grade],
    ["Absent"], ["Withheld"] or null, as [FormattedType] declares. *)
Theorem formatData_outcomes_typed data out i k v :
  (forall item, item ∈ data -> exists g, grade item = grade_val g) ->
  formatData data = Normal out -> i ∈ out ->
  obj_get k (grades i) = Some v ->
  exists o : CourseOutcome, v = outcome_val o.
Proof.
  intros Htyped Hout Hin Hv.
  destruct (formatData_outcome_source _ _ _ _ _ Hout Hin Hv)
    as (item & Hitem & _ & _ & [-> | ->]).
  - destruct (Htyped _ Hitem) as [[g|] ->];
      [by exists (OGrade g) | by exists OUnset].
  - by apply seed_outcome_typed, Htyped.
Qed.

Lemma formatData_outcomes_typed_witness :
  exists o : CourseOutcome, JStr "Absent" = outcome_val o.
Proof.
  apply (formatData_outcomes_typed
    [row (JNum 2) "C1" JNull (JStr "Absent") JNull;
     row (JNum 2) "C2" (JStr "S") (JStr "Present") JNull]
    [student (JNum 2) [("C1", JStr "Absent"); ("C2", JStr "S")]]
    (student (JNum 2) [("C1", JStr "Absent"); ("C2", JStr "S")])
    "C1" (JStr "Absent")).
  - intros item Hin.
    apply elem_of_cons in Hin as [-> | Hin]; [by exists None|].
    apply list_elem_of_singleton in Hin as ->. by exists (Some Grade.S).
  - reflexivity.
  - left.
  - reflexivity.
Defined.

(** ** Columns of a pivoted input *)

Section FirstSeenApp.
Context {A : Type} `{EqDecision A}.
Implicit Types (l : list A).

Lemma first_seen_app l1 l2 :
  first_seen (l1 ++ l2)
  = first_seen l1 ++ filter (fun x => x ∉ l1) (first_seen l2).
Proof.
  induction l2 as [|x l2 IH] using rev_ind.
  - by rewrite !app_nil_r.
  - rewrite app_assoc, !first_seen_snoc, IH.
    destruct (decide (x ∈ l2)) as [H2|H2].
    + by rewrite decide_True by (apply elem_of_app; by right).
    + destruct (decide (x ∈ l1)) as [H1|H1].
      * rewrite decide_True by (apply elem_of_app; by left).
        by rewrite filter_app, filter_singleton_False, app_nil_r by tauto.
      * rewrite decide_False by (rewrite elem_of_app; tauto).
        by rewrite filter_app, filter_singleton_True, app_assoc by done.
Qed.

Lemma first_seen_idem l : first_seen (first_seen l) = first_seen l.
Proof. apply first_seen_id, first_seen_NoDup. Qed.

Lemma first_seen_app_r l1 l2 :
  first_seen (l1 ++ first_seen l2) = first_seen (l1 ++ l2).
Proof. by rewrite !first_seen_app, first_seen_idem. Qed.

Lemma first_seen_bind {B} (f : B -> list A) (rs : list B) :
  first_seen (rs ≫= (fun r => first_seen (f r))) = first_seen (rs ≫= f).
Proof.
  induction rs as [|r rs IH] using rev_ind; [done|].
  rewrite !bind_app, !bind_singleton.
  rewrite first_seen_app_r, !first_seen_app, IH. f_equal.
  apply list_filter_iff. intros x.
  by rewrite <- !(first_seen_elem (rs ≫= _)), IH.
Qed.
End FirstSeenApp.

Lemma course_keys_of_elem data c :
  c ∈ (fun item => to_property_key (course item)) <$> data
  <-> exists r, r ∈ registerNo <$> data /\ c ∈ course_keys_of r data.
Proof.
  unfold course_keys_of, rows_of. split.
  - intros (item & -> & Hitem)%list_elem_of_fmap. exists (registerNo item).
    split; [by apply list_elem_of_fmap_2|].
    apply list_elem_of_fmap. exists item.
    by rewrite list_elem_of_filter.
  - intros (r & _ & (item & -> & Hitem)%list_elem_of_fmap).
    apply list_elem_of_filter in Hitem as [_ Hitem].
    apply list_elem_of_fmap. by exists item.
Qed.

(** X8.  The course list of a pivoted input: when no row has the course
    key [__proto__], [getAllCourses] of the result of [formatData] has no
    repetition and consists of the course keys of the rows; and when
    moreover no course key is an array index, it lists them student by
    student, the students in first-seen order and the courses of each in
    first-seen order. *)
Theorem columns_of_formatData data out :
  formatData data = Normal out ->
  Forall (fun item => to_property_key (course item) <> "__proto__") data ->
  NoDup (getAllCourses out) /\
  (forall c, c ∈ getAllCourses out
             <-> c ∈ (fun item => to_property_key (course item)) <$> data) /\
  (Forall (fun item => array_index (to_property_key (course item)) = None)
          data ->
   getAllCourses out
   = first_seen (first_seen (registerNo <$> data)
                 ≫= (fun r => course_keys_of r data))).
Proof.
  intros Hout Hproto.
  assert (forall r, "__proto__" ∉ course_keys_of r data) as Hp.
  { intros r (item & Hk & Hitem)%list_elem_of_fmap.
    apply list_elem_of_filter in Hitem as [_ Hitem].
    rewrite Forall_forall in Hproto. by apply (Hproto item). }
  assert (getAllCourses out = first_seen (scanned_keys out)) as Heq.
  { unfold getAllCourses. apply (scan_items out []). }
  rewrite Heq. split; [apply first_seen_NoDup|]. split.
  - intros c. rewrite first_seen_elem, course_keys_of_elem.
    unfold scanned_keys. rewrite list_elem_of_bind. split.
    + intros (i & Hc & Hi). exists (f_registerNo i). split.
      * rewrite <- first_seen_elem, <- (formatData_registerNos _ _ Hout).
        by apply list_elem_of_fmap_2.
      * rewrite Object_keys_perm in Hc.
        rewrite (formatData_own_keys _ _ _ Hout Hi (Hp _)) in Hc.
        by rewrite first_seen_elem in Hc.
    + intros (r & Hr & Hc).
      rewrite <- first_seen_elem, <- (formatData_registerNos _ _ Hout) in Hr.
      apply list_elem_of_fmap in Hr as (i & -> & Hi). exists i.
      split; [|done]. rewrite Object_keys_perm.
      rewrite (formatData_own_keys _ _ _ Hout Hi (Hp _)).
      by rewrite first_seen_elem.
  - intros Hnone.
    rewrite <- (formatData_registerNos _ _ Hout), <- first_seen_bind.
    f_equal. unfold scanned_keys.
    assert (forall i, i ∈ out ->
              Object_keys (grades i)
              = first_seen (course_keys_of (f_registerNo i) data)) as Hkeys.
    { intros i Hi. rewrite Object_keys_no_index;
        rewrite (formatData_own_keys _ _ _ Hout Hi (Hp _)); [done|].
      apply Forall_forall. intros k Hk. rewrite first_seen_elem in Hk.
      apply list_elem_of_fmap in Hk as (item & -> & Hitem).
      apply list_elem_of_filter in Hitem as [_ Hitem].
      rewrite Forall_forall in Hnone. by apply Hnone. }
    clear -Hkeys. induction out as [|i out IH]; [done|].
    rewrite fmap_cons, !bind_cons, Hkeys by left. f_equal.
    apply IH. intros j Hj. apply Hkeys. by right.
Qed.

Lemma columns_of_formatData_witness :
  getAllCourses [student (JNum 1) [("X", JStr "A"); ("Z", JStr "B")];
                 student (JNum 2) [("Y", JStr "C")]]
  = first_seen (first_seen (registerNo <$>
      [row (JNum 1) "X" (JStr "A") (JStr "Present") JNull;
       row (JNum 2) "Y" (JStr "C") (JStr "Present") JNull;
       row (JNum 1) "Z" (JStr "B") (JStr "Present") JNull])
     ≫= (fun r => course_keys_of r
      [row (JNum 1) "X" (JStr "A") (JStr "Present") JNull;
       row (JNum 2) "Y" (JStr "C") (JStr "Present") JNull;
       row (JNum 1) "Z" (JStr "B") (JStr "Present") JNull])).
Proof.
  destruct (columns_of_formatData
    [row (JNum 1) "X" (JStr "A") (JStr "Present") JNull;
     row (JNum 2) "Y" (JStr "C") (JStr "Present") JNull;
     row (JNum 1) "Z" (JStr "B") (JStr "Present") JNull]
    [student (JNum 1) [("X", JStr "A"); ("Z", JStr "B")];
     student (JNum 2) [("Y", JStr "C")]]) as (_ & _ & Horder).
  - reflexivity.
  - repeat constructor; discriminate.
  - apply Horder. repeat constructor.
Defined.

(** ** Line endings *)

Lemma chomp_CR_plain l : ends_with_CR l = false -> chomp_CR l = l.
Proof.
  induction l as [|c l IH]; [done|]. destruct l as [|c' l].
  - simpl. by intros ->.
  - intros H. change (chomp_CR (String c (String c' l)))
      with (String c (chomp_CR (String c' l))).
    by rewrite IH.
Qed.

Lemma split_lines_LF_line l rest :
  plain_line l -> split_lines (l +:+ String LF rest) = l :: split_lines rest.
Proof.
  intros [Hlf Hcr]. by rewrite split_lines_header, chomp_CR_plain.
Qed.

Lemma split_lines_CRLF_line l rest :
  contains_LF l = false ->
  split_lines (l +:+ String CR (String LF rest)) = l :: split_lines rest.
Proof.
  induction l as [|c l IH].
  - intros _. change ("" +:+ String CR (String LF rest))
      with (String CR (String LF rest)).
    by rewrite !split_lines_step.
  - rewrite contains_LF_cons. intros [Hc Hl]%Bool.orb_false_elim.
    rewrite append_cons, split_lines_step, Hc, IH by done.
    assert (starts_with_LF (l +:+ String CR (String LF rest)) = false) as ->.
    { destruct l as [|c' l]; [done|]. rewrite contains_LF_cons in Hl.
      by apply Bool.orb_false_elim in Hl as [Hc' _]. }
    by rewrite Bool.andb_false_r.
Qed.

Lemma parseCsv_split_lines Papa_parse file1 file2 :
  split_lines file1 = split_lines file2 ->
  parseCsv Papa_parse (text_file file1) = parseCsv Papa_parse (text_file file2).
Proof.
  intros Heq. rewrite !parseCsv_text.
  pose proof (few_lines_iff file1) as H1.
  pose proof (few_lines_iff file2) as H2. rewrite Heq in H1.
  assert (contains_LF file1 = contains_LF file2) as ->.
  { rewrite H1 in H2. by destruct (contains_LF file1), (contains_LF file2). }
  by rewrite Heq.
Qed.

Lemma split_lines_join (ls : list string) :
  ls <> [] -> Forall plain_line ls ->
  split_lines (join_lines ls) = ls /\ split_lines (join_crlf ls) = ls.
Proof.
  intros Hne Hall. induction Hall as [|l ls Hl Hall IH]; [done|].
  destruct ls as [|l' ls].
  - unfold join_lines, join_crlf. simpl.
    split; by apply split_lines_no_LF, Hl.
  - destruct IH as [IH1 IH2]; [done|].
    change (join_lines (l :: l' :: ls))
      with (l +:+ String LF (join_lines (l' :: ls))).
    change (join_crlf (l :: l' :: ls))
      with (l +:+ String CR (String LF (join_crlf (l' :: ls)))).
    rewrite split_lines_LF_line, split_lines_CRLF_line by (done || apply Hl).
    by rewrite IH1, IH2.
Qed.

(** X9.  Lines without a line feed inside and without a carriage return
    at their end are recovered by [split_lines] from their join, whether
    joined with LF, as [parseCsv] joins them, or with CR LF. *)
Theorem split_join_round_trip (ls : list string) :
  ls <> [] -> Forall plain_line ls ->
  split_lines (join_lines ls) = ls /\ split_lines (join_crlf ls) = ls.
Proof. apply split_lines_join. Qed.

Lemma split_join_round_trip_witness :
  split_lines (join_lines ["Register No;Course"; "1,C1"; ""])
  = ["Register No;Course"; "1,C1"; ""] /\
  split_lines (join_crlf ["Register No;Course"; "1,C1"; ""])
  = ["Register No;Course"; "1,C1"; ""].
Proof.
  apply (split_join_round_trip ["Register No;Course"; "1,C1"; ""]).
  - discriminate.
  - repeat constructor.
Defined.

(** X10.  A file with CR LF line endings is parsed as the same file with
    LF line endings: the same callback with the same argument. *)
Theorem parseCsv_line_endings
    (Papa_parse : string -> list ResultType) (ls : list string) :
  ls <> [] -> Forall plain_line ls ->
  parseCsv Papa_parse (text_file (join_crlf ls))
  = parseCsv Papa_parse (text_file (join_lines ls)).
Proof.
  intros Hne Hall. apply parseCsv_split_lines.
  destruct (split_lines_join ls Hne Hall) as [-> ->]. done.
Qed.

Lemma parseCsv_line_endings_witness :
  parseCsv (fun _ => []) (text_file (join_crlf ["Register No"; "1"; "2"]))
  = parseCsv (fun _ => []) (text_file (join_lines ["Register No"; "1"; "2"])).
Proof.
  apply (parseCsv_line_endings (fun _ => []) ["Register No"; "1"; "2"]).
  - discriminate.
  - repeat constructor.
Defined.

(** ** The row handed to the sheet *)

Lemma prop_get_define_eq k v l : prop_get k (define_property k v l) = Some v.
Proof.
  induction l as [|[k' v'] l IH]; simpl.
  - by rewrite String.eqb_refl.
  - destruct (String.eqb k' k) eqn:E; simpl; by rewrite E.
Qed.

Lemma prop_get_define_ne k k' v l :
  k' <> k -> prop_get k' (define_property k v l) = prop_get k' l.
Proof.
  intros Hne. induction l as [|[k0 v0] l IH]; simpl.
  - by rewrite (proj2 (String.eqb_neq k k')) by done.
  - destruct (String.eqb k0 k) eqn:E; simpl; [|by rewrite IH].
    apply String.eqb_eq in E as ->.
    by rewrite (proj2 (String.eqb_neq k k')) by done.
Qed.

Lemma assoc_get_Some_elem k v l : assoc_get k l = Some v -> k ∈ l.*1.
Proof.
  induction l as [|[k' v'] l IH]; [done|]. simpl.
  destruct (String.eqb_spec k' k) as [->|_]; [left | right; auto].
Qed.

Lemma spread_get g k ks l :
  prop_get k
    (fold_left
       (fun l k => match obj_get k g with
                   | Some v => define_property k (Prim v) l
                   | None => l
                   end) ks l)
  = match obj_get k g with
    | Some v => if decide (k ∈ ks) then Some (Prim v) else prop_get k l
    | None => prop_get k l
    end.
Proof.
  revert l. induction ks as [|k0 ks IH]; intros l.
  - cbn [fold_left]. destruct (obj_get k g); [|done].
    by rewrite decide_False by apply not_elem_of_nil.
  - cbn [fold_left]. rewrite IH. destruct (obj_get k g) as [v|] eqn:Hk.
    + destruct (decide (k ∈ ks)) as [Hin|Hin].
      * by rewrite decide_True by by right.
      * destruct (decide (k = k0)) as [->|Hne].
        -- rewrite decide_True by left. by rewrite Hk, prop_get_define_eq.
        -- rewrite decide_False by (rewrite elem_of_cons; tauto).
           destruct (obj_get k0 g); [by apply prop_get_define_ne | done].
    + destruct (obj_get k0 g) as [v0|] eqn:Hk0; [|done].
      apply prop_get_define_ne. congruence.
Qed.

Lemma reFormat_item_lookup (item : FormattedType) (k : string) :
  prop_get k (reFormat_item item)
  = if String.eqb k "grades" then Some (Prim JUndefined)
    else match obj_get k (grades item) with
         | Some v => Some (Prim v)
         | None => prop_get k (item_properties item)
         end.
Proof.
  unfold reFormat_item. destruct (String.eqb_spec k "grades") as [->|Hne].
  - apply prop_get_define_eq.
  - rewrite prop_get_define_ne by done. unfold spread. rewrite spread_get.
    destruct (obj_get k (grades item)) as [v|] eqn:Hk; [|done].
    rewrite decide_True; [done|]. rewrite Object_keys_perm.
    by apply assoc_get_Some_elem with v.
Qed.

(** X11.  In the row handed to the sheet, the key [grades] is always
    undefined, also when a course has that key, whose outcome is then
    lost.  Every other course key has its outcome, also when it is the
    name of another of the student's own fields, whose value the outcome
    then replaces; and every key that is no course key has the student's
    own field, if any. *)
Theorem reFormat_item_get (item : FormattedType) (k : string) :
  prop_get k (reFormat_item item)
  = if String.eqb k "grades" then Some (Prim JUndefined)
    else match obj_get k (grades item) with
         | Some v => Some (Prim v)
         | None => prop_get k (item_properties item)
         end.
Proof. apply reFormat_item_lookup. Qed.

(** ** Merged ranges *)

Lemma merges_eq courses :
  merges courses
  = [ Sheet.mkRange (Sheet.mkAddress 0 0)
        (Sheet.mkAddress 0 (5 + Z.of_nat (length courses)));
      Sheet.mkRange (Sheet.mkAddress 1 0)
        (Sheet.mkAddress 1 (5 + Z.of_nat (length courses)));
      Sheet.mkRange (Sheet.mkAddress 2 5)
        (Sheet.mkAddress 2 (5 + Z.of_nat (length courses) - 1));
      Sheet.mkRange (Sheet.mkAddress 2 0) (Sheet.mkAddress 3 0);
      Sheet.mkRange (Sheet.mkAddress 2 1) (Sheet.mkAddress 3 1);
      Sheet.mkRange (Sheet.mkAddress 2 2) (Sheet.mkAddress 3 2);
      Sheet.mkRange (Sheet.mkAddress 2 3) (Sheet.mkAddress 3 3);
      Sheet.mkRange (Sheet.mkAddress 2 4) (Sheet.mkAddress 3 4) ].
Proof. reflexivity. Qed.

Ltac lookup_cases H m :=
  lazymatch type of H with
  | [] !! _ = Some _ => by rewrite lookup_nil in H
  | (_ :: _) !! _ = Some _ =>
      destruct m as [|m];
      [injection H as <- | rewrite lookup_cons in H; lookup_cases H m]
  end.

(** X12.  The merged ranges never overlap, whatever the number of
    courses, and no title cell of a course lies in one of them; the
    range of the caption spans the columns of the courses, so with no
    course at all it is empty and does not contain the caption cell. *)
Theorem merges_layout (courses : list string) :
  (forall m n rg1 rg2 a,
      merges courses !! m = Some rg1 -> merges courses !! n = Some rg2 ->
      m <> n -> ~ (in_range a rg1 /\ in_range a rg2)) /\
  (forall index rg, (index < length courses)%nat -> rg ∈ merges courses ->
      ~ in_range (title_address index) rg) /\
  (forall rg col, merges courses !! 2%nat = Some rg ->
      (in_range (Sheet.mkAddress 2 col) rg
       <-> 5 <= col < 5 + Z.of_nat (length courses))) /\
  (forall rg, merges courses !! 2%nat = Some rg ->
      (in_range caption_address rg <-> courses <> [])).
Proof.
  rewrite merges_eq. split; [|split; [|split]].
  - intros m n rg1 rg2 [row col] Hm Hn Hne [H1 H2].
    unfold in_range in *.
    lookup_cases Hm m; lookup_cases Hn n; simpl in *; first [lia | done].
  - intros index rg Hlt Hin. unfold in_range, title_address.
    repeat (apply elem_of_cons in Hin as [-> | Hin]; [simpl; lia|]).
    by apply elem_of_nil in Hin.
  - intros rg col [= <-]. unfold in_range. simpl. lia.
  - intros rg [= <-]. unfold in_range, caption_address. simpl.
    destruct courses; simpl; [|split; [done | lia]].
    split; [lia | done].
Qed.

(** ** Course titles *)

Lemma has_char_cons a c s :
  has_char a (String c s) = Ascii.eqb a c || has_char a s.
Proof. reflexivity. Qed.

Lemma split_on_no_sep sep s : has_char sep s = false -> split_on sep s = [s].
Proof.
  induction s as [|c s IH]; [done|]. rewrite has_char_cons.
  intros [Hc Hs]%Bool.orb_false_elim. rewrite Ascii.eqb_sym in Hc.
  cbn [split_on]. by rewrite Hc, IH.
Qed.

Lemma split_on_piece sep p rest :
  has_char sep p = false ->
  split_on sep (p +:+ String sep rest) = p :: split_on sep rest.
Proof.
  induction p as [|c p IH].
  - intros _. change ("" +:+ String sep rest) with (String sep rest).
    cbn [split_on]. by rewrite Ascii.eqb_refl.
  - rewrite has_char_cons. intros [Hc Hp]%Bool.orb_false_elim.
    rewrite Ascii.eqb_sym in Hc. rewrite append_cons. cbn [split_on].
    by rewrite Hc, IH.
Qed.

(** X13.  The title of a course is the text between its first and its
    second dash: a course without a dash has no title, and what follows a
    second dash is left out. *)
Theorem course_title_pieces (code title more : string) :
  has_char "-" code = false -> has_char "-" title = false ->
  course_title code = None /\
  course_title (code +:+ String "-" title) = Some title /\
  course_title (code +:+ String "-" (title +:+ String "-" more)) = Some title.
Proof.
  intros Hcode Htitle. unfold course_title. repeat split.
  - by rewrite split_on_no_sep.
  - by rewrite split_on_piece, split_on_no_sep.
  - by rewrite !split_on_piece.
Qed.

Lemma course_title_pieces_witness :
  course_title "2001" = None /\
  course_title ("2001" +:+ String "-" "English") = Some "English" /\
  course_title ("2001" +:+ String "-" ("English" +:+ String "-" "II"))
  = Some "English".
Proof.
  apply (course_title_pieces "2001" "English" "II"); reflexivity.
Defined.

(** ** Derived outcomes *)

Lemma single_student_run first rest i k v :
  formatData (first :: rest) = Normal [i] ->
  obj_get k (grades i) = Some v ->
  to_property_key (course first) = k \/
  exists item, item ∈ rest /\ to_property_key (course item) = k /\
               v = grade item.
Proof.
  revert i. induction rest as [|last rest IH] using rev_ind; intros i Hrun Hv.
  - injection Hrun as <-. left. unfold seed_entry, obj_get in Hv.
    simpl in Hv.
    by destruct (String.eqb_spec (to_property_key (course first)) k).
  - rewrite app_comm_cons in Hrun.
    apply formatData_snoc_inv in Hrun
      as (out & Hout & [[Hd Heq] | (l1 & i0 & l2 & -> & Hd & Hi0 & Heq)]).
    + destruct out; [|by destruct out].
      by apply formatData_registerNos in Hout.
    + destruct l1; [|by destruct l1]. injection Heq as -> <-.
      unfold overwrite_entry in Hv. simpl in Hv.
      apply obj_get_set_inv in Hv as [[-> ->] | Hv].
      * right. exists last. split; [apply elem_of_app; right; left | done].
      * destruct (IH _ Hout Hv) as [Hk | (item & Hin & Hrest)]; [by left|].
        right. exists item. split; [apply elem_of_app; by left | done].
Qed.

Lemma raw_grade_not_derived g :
  grade_val g <> JStr "Absent" /\ grade_val g <> JStr "Withheld".
Proof. destruct g as [[]|]; split; discriminate. Qed.

(** X14.  Every outcome of a student other than the one of the course of
    the student's first row is the raw [grade] field of a row of that
    student and course.  So, when the [grade] fields are null or members
    of [Grade], the outcomes ["Absent"] and ["Withheld"] occur for the
    course of a student's first row only. *)
Theorem derived_outcome_first_course data out i k v :
  formatData data = Normal out -> i ∈ out ->
  obj_get k (grades i) = Some v ->
  ((exists item, first_row (f_registerNo i) data = Some item /\
                 to_property_key (course item) = k) \/
   (exists item, item ∈ data /\ registerNo item = f_registerNo i /\
                 to_property_key (course item) = k /\ v = grade item)) /\
  ((forall item, item ∈ data -> exists g, grade item = grade_val g) ->
   v = JStr "Absent" \/ v = JStr "Withheld" ->
   exists item, first_row (f_registerNo i) data = Some item /\
                to_property_key (course item) = k).
Proof.
  intros Hout Hin Hv.
  pose proof (formatData_rows_of _ _ _ Hout Hin) as Hrows.
  assert ((exists item, first_row (f_registerNo i) data = Some item /\
                        to_property_key (course item) = k) \/
          (exists item, item ∈ data /\ registerNo item = f_registerNo i /\
                        to_property_key (course item) = k /\ v = grade item))
    as Hcases.
  { unfold first_row.
    destruct (rows_of (f_registerNo i) data) as [|first rest] eqn:Erows;
      [done|].
    destruct (single_student_run _ _ _ _ _ Hrows Hv)
      as [Hk | (item & Hitem & Hk & Hgrade)].
    - left. by exists first.
    - right. exists item.
      assert (item ∈ rows_of (f_registerNo i) data) as Hitem'
        by (rewrite Erows; by right).
      unfold rows_of in Hitem'.
      apply list_elem_of_filter in Hitem' as [Hr Hitem']. done. }
  split; [done|]. intros Htyped Hderived.
  destruct Hcases as [Hfirst | (item & Hitem & _ & _ & ->)]; [done|].
  destruct (Htyped _ Hitem) as [g Hg]. rewrite Hg in Hderived.
  destruct (raw_grade_not_derived g). by destruct Hderived.
Qed.

Lemma derived_outcome_first_course_witness :
  exists item,
    first_row (f_registerNo
                 (student (JNum 3) [("C1", JStr "Absent"); ("C2", JNull)]))
      [row (JNum 3) "C1" JNull (JStr "Absent") JNull;
       row (JNum 3) "C2" JNull (JStr "Absent") JNull]
    = Some item /\
    to_property_key (course item) = "C1".
Proof.
  destruct (derived_outcome_first_course
    [row (JNum 3) "C1" JNull (JStr "Absent") JNull;
     row (JNum 3) "C2" JNull (JStr "Absent") JNull]
    [student (JNum 3) [("C1", JStr "Absent"); ("C2", JNull)]]
    (student (JNum 3) [("C1", JStr "Absent"); ("C2", JNull)])
    "C1" (JStr "Absent")) as [_ Hfirst].
  - reflexivity.
  - left.
  - reflexivity.
  - apply Hfirst; [|by left]. intros item Hin. exists None.
    apply elem_of_cons in Hin as [-> | Hin]; [done|].
    by apply list_elem_of_singleton in Hin as ->.
Defined.

(** ** The styling loop *)

Lemma style_cell_ws R C ws cols R' C' :
  (style_cell R C (ws, cols)).1 R' C'
  = if decide (R' = R /\ C' = C) then restyled <$> ws R' C' else ws R' C'.
Proof.
  unfold style_cell. destruct (ws R C) as [cell|] eqn:Hcell.
  - assert (forall cols' : option Widths,
              (ws_set R C (restyled cell) ws, cols').1 R' C'
              = (if decide (R' = R /\ C' = C) then restyled <$> ws R' C'
                 else ws R' C')) as Hset.
    { intros cols'. unfold ws_set. simpl.
      destruct (decide (R' = R /\ C' = C)) as [[-> ->]|]; [|done].
      by rewrite Hcell. }
    fold (restyled cell).
    destruct (cell_value cell); [case_bool_decide|]; apply Hset.
  - simpl. destruct (decide (R' = R /\ C' = C)) as [[-> ->]|]; [|done].
    by rewrite Hcell.
Qed.

Lemma text_at_restyled ws ws' R C :
  ws' R C = restyled <$> ws R C -> text_at ws' R C = text_at ws R C.
Proof.
  unfold text_at. intros ->. destruct (ws R C) as [[[v|t v] s]|]; done.
Qed.

Lemma style_cell_text R C st R' C' :
  text_at (style_cell R C st).1 R' C' = text_at st.1 R' C'.
Proof.
  destruct st as [ws cols]. cbn [fst].
  destruct (decide (R' = R /\ C' = C)) as [Heq|Hne].
  - apply text_at_restyled. by rewrite style_cell_ws, decide_True.
  - unfold text_at. by rewrite style_cell_ws, decide_False.
Qed.

Lemma style_cell_width R C ws cols C0 :
  width_of (style_cell R C (ws, cols)).2 C0
  = match (if decide (C0 = C /\ C ∈ [1; 2; 3; 4]) then text_at ws R C
           else None) with
    | Some v => Some (Z.of_nat (String.length v) + 5)
    | None => width_of cols C0
    end.
Proof.
  unfold style_cell, text_at.
  destruct (ws R C) as [[[v|t v] s]|]; simpl;
    try by destruct (decide (C0 = C /\ C ∈ [1; 2; 3; 4])).
  case_bool_decide as Hin; simpl.
  - unfold widths_set. destruct (decide (C0 = C)) as [->|Hne].
    + by rewrite decide_True.
    + rewrite decide_False by tauto. by destruct cols.
  - by rewrite decide_False by tauto.
Qed.

Lemma style_row_snoc R Cs C st :
  fold_left (fun st C => style_cell R C st) (Cs ++ [C]) st
  = style_cell R C (fold_left (fun st C => style_cell R C st) Cs st).
Proof. by rewrite fold_left_app. Qed.

Lemma style_row_text R Cs st R' C' :
  text_at (fold_left (fun st C => style_cell R C st) Cs st).1 R' C'
  = text_at st.1 R' C'.
Proof.
  induction Cs as [|C Cs IH] using rev_ind; [done|].
  by rewrite style_row_snoc, style_cell_text.
Qed.

Lemma restyled_idem (cell : option Cell) :
  restyled <$> (restyled <$> cell) = restyled <$> cell.
Proof. by destruct cell. Qed.

Lemma style_row_ws R Cs st R' C' :
  (fold_left (fun st C => style_cell R C st) Cs st).1 R' C'
  = if decide (R' = R /\ C' ∈ Cs) then restyled <$> st.1 R' C'
    else st.1 R' C'.
Proof.
  induction Cs as [|C Cs IH] using rev_ind.
  - cbn [fold_left].
    destruct (decide (R' = R /\ C' ∈ [])) as [[_ H]|]; [|done].
    by apply elem_of_nil in H.
  - rewrite style_row_snoc.
    destruct (fold_left (fun st C => style_cell R C st) Cs st)
      as [ws1 cols1] eqn:Hfold.
    rewrite style_cell_ws. simpl in IH. rewrite IH. clear IH Hfold.
    destruct (decide (R' = R /\ C' ∈ Cs ++ [C])) as [Hin|Hnin];
      rewrite elem_of_app, list_elem_of_singleton in *;
      destruct (decide (R' = R /\ C' = C));
      destruct (decide (R' = R /\ C' ∈ Cs));
      first [done | apply restyled_idem | tauto].
Qed.

Lemma style_row_width R Cs ws cols C0 :
  width_of (fold_left (fun st C => style_cell R C st) Cs (ws, cols)).2 C0
  = match (if decide (C0 ∈ Cs /\ C0 ∈ [1; 2; 3; 4]) then text_at ws R C0
           else None) with
    | Some v => Some (Z.of_nat (String.length v) + 5)
    | None => width_of cols C0
    end.
Proof.
  induction Cs as [|C Cs IH] using rev_ind.
  - cbn [fold_left snd].
    destruct (decide (C0 ∈ [] /\ C0 ∈ [1; 2; 3; 4])) as [[H _]|]; [|done].
    by apply elem_of_nil in H.
  - rewrite style_row_snoc.
    pose proof (style_row_text R Cs (ws, cols) R C) as Htext.
    destruct (fold_left (fun st C => style_cell R C st) Cs (ws, cols))
      as [ws1 cols1] eqn:Hfold.
    rewrite style_cell_width. simpl in IH, Htext. rewrite Htext, IH.
    clear IH Htext Hfold.
    destruct (decide (C0 ∈ Cs ++ [C] /\ C0 ∈ [1; 2; 3; 4])) as [Hin|Hnin];
      rewrite elem_of_app, list_elem_of_singleton in *;
      destruct (decide (C0 = C /\ C ∈ [1; 2; 3; 4])) as [[Heq ?]|?];
      destruct (decide (C0 ∈ Cs /\ C0 ∈ [1; 2; 3; 4]));
      try subst C0;
      try (by destruct (text_at ws R C)); try done; try tauto.
    all: exfalso; intuition congruence.
Qed.

Lemma style_rows_snoc Rs R Cs st :
  style_rows (Rs ++ [R]) Cs st
  = fold_left (fun st C => style_cell R C st) Cs (style_rows Rs Cs st).
Proof. unfold style_rows. by rewrite fold_left_app. Qed.

Lemma style_rows_text Rs Cs st R' C' :
  text_at (style_rows Rs Cs st).1 R' C' = text_at st.1 R' C'.
Proof.
  induction Rs as [|R Rs IH] using rev_ind; [done|].
  by rewrite style_rows_snoc, style_row_text.
Qed.

Lemma style_rows_ws Rs Cs st R' C' :
  (style_rows Rs Cs st).1 R' C'
  = if decide (R' ∈ Rs /\ C' ∈ Cs) then restyled <$> st.1 R' C'
    else st.1 R' C'.
Proof.
  induction Rs as [|R Rs IH] using rev_ind.
  - unfold style_rows. cbn [fold_left].
    destruct (decide (R' ∈ [] /\ C' ∈ Cs)) as [[H _]|]; [|done].
    by apply elem_of_nil in H.
  - rewrite style_rows_snoc, style_row_ws, IH. clear IH.
    destruct (decide (R' ∈ Rs ++ [R] /\ C' ∈ Cs)) as [Hin|Hnin];
      rewrite elem_of_app, list_elem_of_singleton in *;
      destruct (decide (R' = R /\ C' ∈ Cs));
      destruct (decide (R' ∈ Rs /\ C' ∈ Cs));
      first [done | apply restyled_idem | tauto].
Qed.

Lemma style_rows_width Rs Cs ws cols C0 :
  width_of (style_rows Rs Cs (ws, cols)).2 C0
  = if decide (C0 ∈ Cs /\ C0 ∈ [1; 2; 3; 4])
    then match first_text ws C0 (reverse Rs) with
         | Some v => Some (Z.of_nat (String.length v) + 5)
         | None => width_of cols C0
         end
    else width_of cols C0.
Proof.
  induction Rs as [|R Rs IH] using rev_ind.
  - simpl. by destruct (decide (C0 ∈ Cs /\ C0 ∈ [1; 2; 3; 4])).
  - rewrite style_rows_snoc, reverse_snoc. cbn [first_text].
    pose proof (style_rows_text Rs Cs (ws, cols) R C0) as Htext.
    destruct (style_rows Rs Cs (ws, cols)) as [ws1 cols1] eqn:Hrows.
    rewrite style_row_width. simpl in IH, Htext. rewrite Htext, IH.
    destruct (decide (C0 ∈ Cs /\ C0 ∈ [1; 2; 3; 4])); [|done].
    by destruct (text_at ws R C0).
Qed.

Lemma last_text_seqZ ws C m (k : nat) R v :
  m <= R < m + Z.of_nat k -> text_at ws R C = Some v ->
  (forall R', R < R' < m + Z.of_nat k -> text_at ws R' C = None) ->
  first_text ws C (reverse (seqZ m (Z.of_nat k))) = Some v.
Proof.
  induction k as [|k IH]; intros HR Hv Hlater; [lia|].
  rewrite Nat2Z.inj_succ, <- Z.add_1_r, seqZ_app by lia.
  rewrite reverse_app. change (reverse (seqZ (m + Z.of_nat k) 1))
    with [0 + (m + Z.of_nat k)].
  rewrite Z.add_0_l. cbn [app first_text].
  destruct (decide (R = m + Z.of_nat k)) as [<-|Hne].
  - by rewrite Hv.
  - rewrite Hlater by lia. apply IH; [lia | done |].
    intros R' HR'. apply Hlater. lia.
Qed.

(** X15.  The width of one of the columns 1 to 4 is taken from the last
    row that has a text in that column: the length of that text plus 5,
    whatever the texts of the rows before it. *)
Theorem column_width_last_row e_r e_c ws R C v :
  4 <= R <= e_r -> C ∈ [1; 2; 3; 4] -> C <= e_c ->
  text_at ws R C = Some v ->
  (forall R', R < R' <= e_r -> text_at ws R' C = None) ->
  width_of (style_cells e_r e_c ws).2 C
  = Some (Z.of_nat (String.length v) + 5).
Proof.
  intros HR HC Hec Hv Hlater. unfold style_cells.
  rewrite style_rows_width, decide_True.
  - replace (e_r - 4 + 1) with (Z.of_nat (Z.to_nat (e_r - 4 + 1))) by lia.
    rewrite (last_text_seqZ ws C 4 _ R v); [done | lia | done |].
    intros R' HR'. apply Hlater. lia.
  - split; [|done]. apply elem_of_seqZ.
    repeat (apply elem_of_cons in HC as [-> | HC]; [lia|]).
    by apply elem_of_nil in HC.
Qed.

Lemma column_width_last_row_witness :
  width_of
    (style_cells 5 1
       (fun R C =>
          if decide (C = 1) then
            if decide (R = 4) then Some (mkCell (TextCell "Bartholomew") None)
            else if decide (R = 5) then Some (mkCell (TextCell "Al") None)
            else None
          else None)).2 1
  = Some (Z.of_nat (String.length "Al") + 5).
Proof.
  apply (column_width_last_row 5 1 _ 5 1 "Al").
  - lia.
  - left.
  - lia.
  - reflexivity.
  - intros R' HR'. lia.
Defined.

(** X16.  The loop restyles the cells that exist in the rows 4 to [e_r]
    and the columns 0 to [e_c], and no other cell: such a cell keeps its
    value and gets the thin border and a fill that depends on its text
    alone, red for Absent and F, purple for Withheld, none otherwise;
    and a width is recorded for columns 1 to 4 only. *)
Theorem style_cells_frame e_r e_c ws :
  (forall R C,
      (style_cells e_r e_c ws).1 R C
      = if decide ((4 <= R <= e_r) /\ (0 <= C <= e_c))
        then restyled <$> ws R C else ws R C) /\
  (forall C, C ∉ [1; 2; 3; 4] \/ e_c < C ->
      width_of (style_cells e_r e_c ws).2 C = None) /\
  (forall value,
      border_thin (style_for value) = true /\
      fill (style_for value)
      = if is_text value "Withheld" then Some "bf819e"
        else if is_text value "Absent" || is_text value "F"
             then Some "ff9797" else None).
Proof.
  split; [|split].
  - intros R C. unfold style_cells. rewrite style_rows_ws. cbn [fst].
    destruct (decide (R ∈ seqZ 4 (e_r - 4 + 1) /\ C ∈ seqZ 0 (e_c + 1)))
      as [Hin|Hnin]; rewrite !elem_of_seqZ in *.
    + by rewrite decide_True by lia.
    + by rewrite decide_False by lia.
  - intros C HC. unfold style_cells. rewrite style_rows_width.
    rewrite decide_False; [done|]. rewrite elem_of_seqZ.
    intros [? ?]. destruct HC; [done | lia].
  - intros value. unfold style_for. destruct value as [v|t v]; [|done].
    cbn [is_text].
    destruct (String.eqb_spec v "Withheld") as [->|_]; [done|].
    destruct (String.eqb_spec v "Absent") as [->|_]; [done|].
    by destruct (String.eqb v "F").
Qed.

(** ** The order of the rows of the sheet *)

Section SortLemmas.
Context {A : Type} (compareFn : A -> A -> Z).

Lemma sort_insert_perm x l : sort_insert compareFn x l ≡ₚ x :: l.
Proof.
  induction l as [|y l IH]; simpl; [done|].
  destruct (compareFn x y <=? 0); [done|]. rewrite IH. apply Permutation_swap.
Qed.

Lemma sort_perm l : sort compareFn l ≡ₚ l.
Proof.
  induction l as [|x l IH]; simpl; [done|]. by rewrite sort_insert_perm, IH.
Qed.

(** Elements on which the comparison function is total. *)
Variable P : A -> Prop.
Hypothesis total : forall a b, P a -> P b ->
  compareFn a b <= 0 \/ compareFn b a <= 0.

Lemma sort_insert_sorted x l :
  P x -> Forall P l ->
  Sorted (fun a b => compareFn a b <= 0) l ->
  Sorted (fun a b => compareFn a b <= 0) (sort_insert compareFn x l).
Proof.
  intros Hx HP Hs. induction Hs as [|y l Hs IH Hhd]; simpl.
  - by repeat constructor.
  - apply Forall_cons in HP as [Hy HP].
    destruct (Z.leb_spec (compareFn x y) 0) as [Hle|Hgt].
    + constructor; [by constructor|]. by constructor.
    + constructor; [by apply IH|].
      destruct (total x y Hx Hy) as [?|Hyx]; [lia|].
      destruct l as [|z l]; simpl; [by constructor|].
      destruct (compareFn x z <=? 0); constructor; [done|].
      by apply HdRel_inv in Hhd.
Qed.

Lemma sort_sorted l :
  Forall P l -> Sorted (fun a b => compareFn a b <= 0) (sort compareFn l).
Proof.
  induction 1 as [|x l Hx HP IH]; simpl; [constructor|].
  apply sort_insert_sorted; [done | by rewrite sort_perm | done].
Qed.

(** Elements that the comparison function does not tell apart keep
    their order. *)
Lemma sort_insert_filter (Q : A -> Prop) `{forall a, Decision (Q a)} x l :
  (forall y, Q x -> Q y -> compareFn x y <= 0) ->
  filter Q (sort_insert compareFn x l) = filter Q (x :: l).
Proof.
  intros Hle. induction l as [|y l IH]; simpl; [done|].
  destruct (Z.leb_spec (compareFn x y) 0) as [Hxy|Hxy]; [done|].
  rewrite filter_cons, IH, !filter_cons.
  destruct (decide (Q y)) as [Hy|Hy]; [|done].
  destruct (decide (Q x)) as [Hx|Hx]; [|done].
  specialize (Hle y Hx Hy). lia.
Qed.

Lemma sort_filter (Q : A -> Prop) `{forall a, Decision (Q a)} l :
  (forall x y, Q x -> Q y -> compareFn x y <= 0) ->
  filter Q (sort compareFn l) = filter Q l.
Proof.
  intros Hle. induction l as [|x l IH]; simpl; [done|].
  rewrite sort_insert_filter by (intros y; apply Hle).
  by rewrite !filter_cons, IH.
Qed.
End SortLemmas.

Lemma string_ltb_leb x y : String.ltb y x = negb (String.leb x y).
Proof.
  unfold String.ltb, String.leb. rewrite (String.compare_antisym x y).
  by destruct (String.compare y x).
Qed.

Lemma string_ltb_irrefl x : String.ltb x x = false.
Proof.
  unfold String.ltb. pose proof (String.compare_antisym x x) as H.
  destruct (String.compare x x); simpl in H; done.
Qed.

Lemma by_studentName_text less_than_numeric a b x y :
  text_name a = Some x -> text_name b = Some y ->
  by_studentName less_than_numeric a b
  = if String.ltb x y then -1 else if String.ltb y x then 1 else 0.
Proof.
  unfold text_name, by_studentName, less_than.
  destruct (studentName_of a); try done. intros [= ->].
  destruct (studentName_of b); try done. by intros [= ->].
Qed.

Lemma by_studentName_le less_than_numeric a b x y :
  text_name a = Some x -> text_name b = Some y ->
  by_studentName less_than_numeric a b <= 0 <-> String.leb x y = true.
Proof.
  intros Ha Hb. rewrite (by_studentName_text _ a b x y Ha Hb).
  rewrite (string_ltb_leb x y). unfold String.ltb, String.leb.
  rewrite (String.compare_antisym x y).
  destruct (String.compare y x); simpl; split; (done || lia).
Qed.

Lemma text_name_reFormat item x :
  f_studentName item = JStr x ->
  obj_get "studentName" (grades item) = None ->
  text_name (reFormat_item item) = Some x.
Proof.
  intros Hname Hnone. unfold text_name, studentName_of.
  rewrite reFormat_item_lookup, Hnone. simpl. by rewrite Hname.
Qed.

(** X17.  When the names of the students are texts, and no course has the
    key [studentName], the rows handed to the sheet are the rows of the
    students in the order of their names, compared by code units, and
    students of the same name keep the order they had. *)
Theorem reFormattedData_sorted
    (less_than_numeric : JsVal -> JsVal -> bool) (data : list FormattedType) :
  Forall (fun item => (exists x, f_studentName item = JStr x) /\
                      obj_get "studentName" (grades item) = None) data ->
  reFormattedData less_than_numeric data ≡ₚ reFormat_item <$> data /\
  Sorted (fun a b => exists x y, text_name a = Some x /\ text_name b = Some y /\
                                 String.leb x y = true)
         (reFormattedData less_than_numeric data) /\
  (forall x,
      filter (fun a => text_name a = Some x)
             (reFormattedData less_than_numeric data)
      = filter (fun a => text_name a = Some x) (reFormat_item <$> data)).
Proof.
  intros Hnames. unfold reFormattedData.
  assert (Forall (fun a => is_Some (text_name a)) (reFormat_item <$> data))
    as Htext.
  { apply Forall_fmap. eapply Forall_impl; [exact Hnames|].
    intros item [[x Hx] Hnone]. exists x. by apply text_name_reFormat. }
  split; [apply sort_perm|]. split.
  - assert (Forall (fun a => is_Some (text_name a))
              (sort (by_studentName less_than_numeric) (reFormat_item <$> data)))
      as Htext' by (by rewrite sort_perm).
    pose proof (sort_sorted (by_studentName less_than_numeric)
                  (fun a => is_Some (text_name a))) as Hsorted.
    specialize (Hsorted ltac:(
      intros a b [x Hx] [y Hy];
      rewrite (by_studentName_le _ a b x y), (by_studentName_le _ b a y x)
        by done;
      apply String.leb_total) _ Htext).
    revert Htext' Hsorted.
    generalize (sort (by_studentName less_than_numeric)
                     (reFormat_item <$> data)).
    intros l HP Hs. induction Hs as [|a l Hs IH Hhd]; [constructor|].
    apply Forall_cons in HP as [[x Hx] HP]. constructor; [by apply IH|].
    destruct Hhd as [|b l Hab]; constructor.
    apply Forall_cons in HP as [[y Hy] _]. exists x, y.
    by rewrite <- (by_studentName_le less_than_numeric a b).
  - intros x. apply sort_filter. intros a b Ha Hb.
    rewrite (by_studentName_text _ a b x x) by done.
    by rewrite string_ltb_irrefl.
Qed.

Lemma reFormattedData_sorted_witness :
  reFormattedData (fun _ _ => false)
    [mkFormatted (JNum 1) (JStr "Zoya") (JStr "CT") (JNum 4) (JStr "Regular")
       (mkObj [("C1", JStr "A")] false) JNull;
     mkFormatted (JNum 2) (JStr "Anu") (JStr "CT") (JNum 4) (JStr "Regular")
       (mkObj [("C1", JStr "B")] false) JNull]
  ≡ₚ reFormat_item <$>
    [mkFormatted (JNum 1) (JStr "Zoya") (JStr "CT") (JNum 4) (JStr "Regular")
       (mkObj [("C1", JStr "A")] false) JNull;
     mkFormatted (JNum 2) (JStr "Anu") (JStr "CT") (JNum 4) (JStr "Regular")
       (mkObj [("C1", JStr "B")] false) JNull].
Proof.
  apply (reFormattedData_sorted (fun _ _ => false)).
  repeat constructor; by eexists.
Defined.

(** * Grouping by register number *)





